(** * Straw-man arena: the websocket game server (src/index.ts)

    A shallow embedding of the server's shared state and handlers:
    the player registry (a JS [Map] from connection to player record),
    the round timer, the broadcast throttler, spawn placement and the
    collision pass of the move handler.

    Conventions of the embedding.
    - A JS number that holds a coordinate is an exact rational or NaN
      ([JSnum]); the rounding of IEEE doubles and the infinities are out
      of scope.  The counter of the round timer and the clock
      ([Date.now()]) are integers ([Z]).
    - The fields [dx] and [dy] of a move are whatever [JSON.parse] gave:
      a number, [undefined] (the field is absent), [null] or a boolean
      ([JSvalue]); the handler adds them to a number unchecked.  Strings,
      arrays and objects in these two fields (where [+] concatenates the
      printed number) are out of scope.
    - [Math.random()] is an oracle [nat -> Q]: the n-th call returns the
      n-th value; the server state counts the calls made so far.
    - [Date.now()] is an input of every event.
    - [ws.send] and [console.log]/[console.warn] append to logs kept in
      the state, so that what a handler emits can be stated.
    - The registry is an insertion-ordered association list.  A player
      record is a JS object mutated in place; its identity is its
      position in the registry, and in-place mutation is list update at
      that position. *)

From Stdlib Require Import QArith Qminmax Qround Lqa ZArith Lia Bool.
From stdpp Require Import base list strings.

(** ** Numbers *)

(** [a < b] on rationals, as a boolean. *)
Definition Qltb (a b : Q) : bool := negb (Qle_bool b a).

(** A JS number: a rational, or NaN. *)
Inductive JSnum : Type := Num (q : Q) | NaN.

(** [a + b], [a < b], [a > b], [Math.max(a, b)] and [Math.min(a, b)] on
    numbers: NaN is absorbing for the arithmetic, and every comparison
    with NaN is false. *)
Definition JSadd (a b : JSnum) : JSnum :=
  match a, b with
  | Num x, Num y => Num (x + y)
  | _, _ => NaN
  end.

Definition JSlt (a b : JSnum) : bool :=
  match a, b with
  | Num x, Num y => Qltb x y
  | _, _ => false
  end.

Definition JSgt (a b : JSnum) : bool := JSlt b a.

Definition Math_max (a b : JSnum) : JSnum :=
  match a, b with
  | Num x, Num y => Num (Qmax x y)
  | _, _ => NaN
  end.

Definition Math_min (a b : JSnum) : JSnum :=
  match a, b with
  | Num x, Num y => Num (Qmin x y)
  | _, _ => NaN
  end.

(** A value read from a parsed JSON payload where a number is expected. *)
Inductive JSvalue : Type :=
| JSnumber (q : Q)
| JSundefined
| JSnull
| JSboolean (b : bool).

(** [ToNumber], as applied by [+] to an operand that is no string. *)
Definition ToNumber (v : JSvalue) : JSnum :=
  match v with
  | JSnumber q => Num q
  | JSundefined => NaN
  | JSnull => Num 0
  | JSboolean true => Num 1
  | JSboolean false => Num 0
  end.

(** [a + v] for a number [a] and a payload value [v]. *)
Definition JSplus (a : JSnum) (v : JSvalue) : JSnum := JSadd a (ToNumber v).

(** ** Constants (index.ts, lines 1-9) *)

Definition PLAYER_SIZE : Q := 64%Q.
Definition ARENA_WIDTH : Q := 1200%Q.
Definition ARENA_HEIGHT : Q := 600%Q.
Definition MAX_SPAWN_ATTEMPTS : nat := 100.
Definition BROADCAST_RATE : Z := 50.

(** ** Player records (interface Player, lines 495-503) *)

Module Player.
Record t : Type := mk {
  id : string;
  x : JSnum;
  y : JSnum;
  isInfected : bool;
  name : option string;
  gender : option string;
  collidingWith : option string   (* [None] is JS null *)
}.

Definition set_x (v : JSnum) (p : t) : t :=
  mk (id p) v (y p) (isInfected p) (name p) (gender p) (collidingWith p).
Definition set_y (v : JSnum) (p : t) : t :=
  mk (id p) (x p) v (isInfected p) (name p) (gender p) (collidingWith p).
Definition set_isInfected (v : bool) (p : t) : t :=
  mk (id p) (x p) (y p) v (name p) (gender p) (collidingWith p).
Definition set_gender (v : option string) (p : t) : t :=
  mk (id p) (x p) (y p) (isInfected p) (name p) v (collidingWith p).
Definition set_collidingWith (v : option string) (p : t) : t :=
  mk (id p) (x p) (y p) (isInfected p) (name p) (gender p) v.
End Player.

Abbreviation Player := Player.t.

(** ** Geometry (lines 505-528) *)

(** [isColliding]: the reduced 24 x 40 hitbox, and differing infection. *)
Definition isColliding (a b : Player) : bool :=
  let A_WIDTH := 24%Q in
  let A_HEIGHT := 40%Q in
  let B_WIDTH := 24%Q in
  let B_HEIGHT := 40%Q in
  JSlt (Player.x a) (JSadd (Player.x b) (Num B_WIDTH)) &&
  JSgt (JSadd (Player.x a) (Num A_WIDTH)) (Player.x b) &&
  JSlt (Player.y a) (JSadd (Player.y b) (Num B_HEIGHT)) &&
  JSgt (JSadd (Player.y a) (Num A_HEIGHT)) (Player.y b) &&
  negb (Bool.eqb (Player.isInfected a) (Player.isInfected b)).

(** [isOverlapping]: the full PLAYER_SIZE square used by placement. *)
Definition isOverlapping (a b : Player) : bool :=
  JSlt (Player.x a) (JSadd (Player.x b) (Num PLAYER_SIZE)) &&
  JSgt (JSadd (Player.x a) (Num PLAYER_SIZE)) (Player.x b) &&
  JSlt (Player.y a) (JSadd (Player.y b) (Num PLAYER_SIZE)) &&
  JSgt (JSadd (Player.y a) (Num PLAYER_SIZE)) (Player.y b).

(** The words of the specification: the open 24-wide, 40-tall rectangle
    anchored at a player's stored position, and two such rectangles
    sharing a point.  A position with a NaN coordinate anchors no
    rectangle. *)
Definition in_reduced_hitbox (p : Player) (px py : Q) : Prop :=
  exists x y, Player.x p = Num x /\ Player.y p = Num y /\
    (x < px /\ px < x + 24 /\ y < py /\ py < y + 40)%Q.

Definition reduced_hitboxes_intersect (a b : Player) : Prop :=
  exists px py, in_reduced_hitbox a px py /\ in_reduced_hitbox b px py.

(** ** The registry: a JS Map keyed by connection (line 14) *)

(** A connection handle ([ws]); only its identity matters. *)
Abbreviation Channel := nat (only parsing).

Abbreviation Registry := (list (Channel * Player)).

Fixpoint Map_get (ws : Channel) (m : Registry) : option Player :=
  match m with
  | [] => None
  | (k, v) :: m' => if Nat.eqb k ws then Some v else Map_get ws m'
  end.

(** [Map.set]: an existing key keeps its place in the iteration order,
    a new key goes last. *)
Fixpoint Map_set (ws : Channel) (p : Player) (m : Registry) : Registry :=
  match m with
  | [] => [(ws, p)]
  | (k, v) :: m' =>
      if Nat.eqb k ws then (ws, p) :: m' else (k, v) :: Map_set ws p m'
  end.

Fixpoint Map_delete (ws : Channel) (m : Registry) : Registry :=
  match m with
  | [] => []
  | (k, v) :: m' =>
      if Nat.eqb k ws then m' else (k, v) :: Map_delete ws m'
  end.

Definition Map_keys (m : Registry) : list Channel := map fst m.
Definition Map_values (m : Registry) : list Player := map snd m.

(** ** Outbound messages and console lines *)

Inductive OutMsg : Type :=
| TimerUpdate (timer : Z) (running paused : bool)
| PlayersMsg (type : string) (payload : list Player)
| AnswerFeedback (playerId playerName : string) (isCorrect : bool).

Inductive ConsoleLine : Type :=
| ClientConnected
| ClientDisconnected
| CollisionLog (name : option string) (infected : bool)
               (otherName : option string) (otherInfected : bool)
| FailedInfected (name : option string)
| FailedRegular (name : option string).

(** ** The module-level state (lines 10-20) *)

Record Server : Type := mkServer {
  players : Registry;
  gameTimer : Z;
  gameRunning : bool;
  gamePaused : bool;
  timerInterval : bool;            (* is a setInterval handle held? *)
  lastBroadcastTime : Z;
  broadcastPending : bool;
  broadcastTimeout : option Z;     (* the pending setTimeout, with its due time *)
  randomCalls : nat;               (* calls of Math.random() so far *)
  sent : list (Channel * OutMsg);  (* every ws.send, oldest first *)
  console : list ConsoleLine
}.

Definition initial : Server :=
  mkServer [] 20 false false false 0 false None 0 [] [].

Definition set_players (v : Registry) (s : Server) : Server :=
  mkServer v (gameTimer s) (gameRunning s) (gamePaused s) (timerInterval s)
    (lastBroadcastTime s) (broadcastPending s) (broadcastTimeout s)
    (randomCalls s) (sent s) (console s).
Definition set_gameTimer (v : Z) (s : Server) : Server :=
  mkServer (players s) v (gameRunning s) (gamePaused s) (timerInterval s)
    (lastBroadcastTime s) (broadcastPending s) (broadcastTimeout s)
    (randomCalls s) (sent s) (console s).
Definition set_gameRunning (v : bool) (s : Server) : Server :=
  mkServer (players s) (gameTimer s) v (gamePaused s) (timerInterval s)
    (lastBroadcastTime s) (broadcastPending s) (broadcastTimeout s)
    (randomCalls s) (sent s) (console s).
Definition set_gamePaused (v : bool) (s : Server) : Server :=
  mkServer (players s) (gameTimer s) (gameRunning s) v (timerInterval s)
    (lastBroadcastTime s) (broadcastPending s) (broadcastTimeout s)
    (randomCalls s) (sent s) (console s).
Definition set_timerInterval (v : bool) (s : Server) : Server :=
  mkServer (players s) (gameTimer s) (gameRunning s) (gamePaused s) v
    (lastBroadcastTime s) (broadcastPending s) (broadcastTimeout s)
    (randomCalls s) (sent s) (console s).
Definition set_lastBroadcastTime (v : Z) (s : Server) : Server :=
  mkServer (players s) (gameTimer s) (gameRunning s) (gamePaused s)
    (timerInterval s) v (broadcastPending s) (broadcastTimeout s)
    (randomCalls s) (sent s) (console s).
Definition set_broadcastPending (v : bool) (s : Server) : Server :=
  mkServer (players s) (gameTimer s) (gameRunning s) (gamePaused s)
    (timerInterval s) (lastBroadcastTime s) v (broadcastTimeout s)
    (randomCalls s) (sent s) (console s).
Definition set_broadcastTimeout (v : option Z) (s : Server) : Server :=
  mkServer (players s) (gameTimer s) (gameRunning s) (gamePaused s)
    (timerInterval s) (lastBroadcastTime s) (broadcastPending s) v
    (randomCalls s) (sent s) (console s).
Definition set_randomCalls (v : nat) (s : Server) : Server :=
  mkServer (players s) (gameTimer s) (gameRunning s) (gamePaused s)
    (timerInterval s) (lastBroadcastTime s) (broadcastPending s)
    (broadcastTimeout s) v (sent s) (console s).
Definition set_sent (v : list (Channel * OutMsg)) (s : Server) : Server :=
  mkServer (players s) (gameTimer s) (gameRunning s) (gamePaused s)
    (timerInterval s) (lastBroadcastTime s) (broadcastPending s)
    (broadcastTimeout s) (randomCalls s) v (console s).
Definition set_console (v : list ConsoleLine) (s : Server) : Server :=
  mkServer (players s) (gameTimer s) (gameRunning s) (gamePaused s)
    (timerInterval s) (lastBroadcastTime s) (broadcastPending s)
    (broadcastTimeout s) (randomCalls s) (sent s) v.

(** [for (const ws of players.keys()) ws.send(msg)] *)
Definition sendAll (msg : OutMsg) (s : Server) : Server :=
  set_sent (sent s ++ map (fun ws => (ws, msg)) (Map_keys (players s))) s.

Definition console_log (l : ConsoleLine) (s : Server) : Server :=
  set_console (console s ++ [l]) s.

(** ** The round timer (lines 22-78) *)

Definition broadcastTimer (s : Server) : Server :=
  sendAll (TimerUpdate (gameTimer s) (gameRunning s) (gamePaused s)) s.

Definition stopTimer (s : Server) : Server :=
  let s := if timerInterval s then set_timerInterval false s else s in
  let s := set_gameRunning false s in
  let s := set_gamePaused false s in
  let s := set_gameTimer 20 s in
  broadcastTimer s.

(** The callback given to [setInterval] (lines 28-39). *)
Definition timerTick (s : Server) : Server :=
  if gamePaused s then s
  else
    let s := set_gameTimer (gameTimer s - 1) s in
    let s := broadcastTimer s in
    if (gameTimer s <=? 0)%Z then
      let s := stopTimer s in
      let s := set_gameTimer 20 s in
      broadcastTimer s
    else s.

Definition startTimer (s : Server) : Server :=
  if timerInterval s then s
  else
    let s := set_gameRunning true s in
    let s := set_gamePaused false s in
    let s := set_timerInterval true s in
    broadcastTimer s.

Definition pauseTimer (s : Server) : Server :=
  broadcastTimer (set_gamePaused true s).

Definition resumeTimer (s : Server) : Server :=
  broadcastTimer (set_gamePaused false s).

(** ** Roster broadcasts and the throttler (lines 326-365) *)

Definition players_update : string := "players:update".
Definition players_reset : string := "players:reset".

Definition broadcastPlayersImmediate (type : string) (now : Z) (s : Server)
  : Server :=
  let allPlayers := Map_values (players s) in
  let s := sendAll (PlayersMsg type allPlayers) s in
  set_lastBroadcastTime now s.

(** The callback given to [setTimeout] (lines 358-362); [now] is the
    clock when it runs. *)
Definition deferredBroadcast (now : Z) (s : Server) : Server :=
  let s := broadcastPlayersImmediate players_update now s in
  let s := set_broadcastPending false s in
  set_broadcastTimeout None s.

Definition broadcastPlayers (type : string) (now : Z) (s : Server) : Server :=
  if negb (String.eqb type players_update) then
    broadcastPlayersImmediate type now s
  else
    let timeSinceLastBroadcast := (now - lastBroadcastTime s)%Z in
    if (BROADCAST_RATE <=? timeSinceLastBroadcast)%Z then
      let s := broadcastPlayersImmediate type now s in
      let s := set_broadcastPending false s in
      match broadcastTimeout s with
      | Some _ => set_broadcastTimeout None s
      | None => s
      end
    else if negb (broadcastPending s) then
      let s := set_broadcastPending true s in
      set_broadcastTimeout
        (Some (now + (BROADCAST_RATE - timeSinceLastBroadcast))%Z) s
    else s.

(** ** Spawn placement (lines 105-187, 367-493) *)

Definition CENTER_ZONE_x : Q := (ARENA_WIDTH / 2 - 100)%Q.
Definition CENTER_ZONE_y : Q := (ARENA_HEIGHT / 2 - 75)%Q.
Definition CENTER_ZONE_width : Q := 200%Q.
Definition CENTER_ZONE_height : Q := 150%Q.
Definition EDGE_MARGIN : Q := 80%Q.

(** The two sampling zones: the centre rectangle of the infected, the
    edge bands of the others. *)
Inductive Zone : Type := Center | Edge.

Section Handlers.

(** The values returned by the successive calls of [Math.random()]. *)
Variable Math_random : nat -> Q.

(** One candidate position, drawn from call [k] on; the result carries
    the number of the next call. *)
Definition centerCandidate (k : nat) : Q * Q * nat :=
  let x := (CENTER_ZONE_x + Math_random k * CENTER_ZONE_width)%Q in
  let y := (CENTER_ZONE_y + Math_random (S k) * CENTER_ZONE_height)%Q in
  (x, y, S (S k)).

Definition edgeCandidate (k : nat) : Q * Q * nat :=
  let edge := Qfloor (Math_random k * 4)%Q in
  let r1 := Math_random (S k) in
  let r2 := Math_random (S (S k)) in
  let '(x, y) :=
    match edge with
    | 0%Z => (* top edge *)
        ((EDGE_MARGIN + r1 * (ARENA_WIDTH - 2 * EDGE_MARGIN - PLAYER_SIZE))%Q,
         (r2 * EDGE_MARGIN)%Q)
    | 1%Z => (* bottom edge *)
        ((EDGE_MARGIN + r1 * (ARENA_WIDTH - 2 * EDGE_MARGIN - PLAYER_SIZE))%Q,
         (ARENA_HEIGHT - EDGE_MARGIN - PLAYER_SIZE + r2 * EDGE_MARGIN)%Q)
    | 2%Z => (* left edge *)
        ((r1 * EDGE_MARGIN)%Q,
         (EDGE_MARGIN + r2 * (ARENA_HEIGHT - 2 * EDGE_MARGIN - PLAYER_SIZE))%Q)
    | _ => (* right edge, and the default *)
        ((ARENA_WIDTH - EDGE_MARGIN - PLAYER_SIZE + r1 * EDGE_MARGIN)%Q,
         (EDGE_MARGIN + r2 * (ARENA_HEIGHT - 2 * EDGE_MARGIN - PLAYER_SIZE))%Q)
    end in
  (x, y, S (S (S k))).

Definition candidate (zone : Zone) (k : nat) : Q * Q * nat :=
  match zone with
  | Center => centerCandidate k
  | Edge => edgeCandidate k
  end.

(** [while (!placed && attempts < MAX_SPAWN_ATTEMPTS)]: the first
    candidate that overlaps no placed player, or [None] when the
    attempts are used up.  [attemptsLeft] is
    [MAX_SPAWN_ATTEMPTS - attempts]. *)
Fixpoint spawnLoop (zone : Zone) (player : Player)
    (placedPlayers : list Player) (attemptsLeft : nat) (k : nat)
  : option (Q * Q) * nat :=
  match attemptsLeft with
  | O => (None, k)
  | S n =>
      let '(x, y, k') := candidate zone k in
      let tempPlayer := Player.set_y (Num y) (Player.set_x (Num x) player) in
      let overlaps := existsb (isOverlapping tempPlayer) placedPlayers in
      if negb overlaps then (Some (x, y), k')
      else spawnLoop zone player placedPlayers n k'
  end.

(** *** join (lines 101-202) *)

Definition joinHandler (ws : Channel) (player : Player) (now : Z)
    (s : Server) : Server :=
  let placedPlayers := Map_values (players s) in
  let '(player, k) :=
    if Player.isInfected player then
      match spawnLoop Center player placedPlayers MAX_SPAWN_ATTEMPTS
              (randomCalls s) with
      | (Some (x, y), k) =>
          (Player.set_y (Num y) (Player.set_x (Num x) player), k)
      | (None, k) =>
          (Player.set_y (Num (ARENA_HEIGHT / 2 - PLAYER_SIZE / 2))
             (Player.set_x (Num (ARENA_WIDTH / 2 - PLAYER_SIZE / 2)) player),
           k)
      end
    else
      match spawnLoop Edge player placedPlayers MAX_SPAWN_ATTEMPTS
              (randomCalls s) with
      | (Some (x, y), k) =>
          (Player.set_y (Num y) (Player.set_x (Num x) player), k)
      | (None, k) =>
          (Player.set_y (Num EDGE_MARGIN)
             (Player.set_x (Num EDGE_MARGIN) player), k)
      end in
  let s := set_randomCalls k s in
  let s := set_players (Map_set ws player (players s)) s in
  let s := broadcastPlayersImmediate players_update now s in
  set_sent
    (sent s ++
     [(ws, TimerUpdate (gameTimer s) (gameRunning s) (gamePaused s))]) s.

(** *** player:gender (lines 212-226) *)

Definition genderHandler (playerId : string) (gender : option string)
    (now : Z) (s : Server) : Server :=
  if gameRunning s then s
  else
    let s :=
      set_players
        (map (fun e : Channel * Player =>
                if String.eqb (Player.id e.2) playerId
                then (e.1, Player.set_gender gender e.2) else e)
             (players s)) s in
    broadcastPlayersImmediate players_update now s.

(** *** move (lines 228-275) *)

(** One iteration of [for (const [otherWs, otherPlayer] of
    players.entries())], at position [i] of the registry.  [player] is
    the mover; the other record is updated in place. *)
Definition collisionStep (ws : Channel) (acc : Player * Server) (i : nat)
  : Player * Server :=
  let '(player, s) := acc in
  match players s !! i with
  | Some (otherWs, otherPlayer) =>
      if Nat.eqb otherWs ws then (player, s)
      else if isColliding player otherPlayer then
        let s := console_log
                   (CollisionLog (Player.name player)
                      (Player.isInfected player)
                      (Player.name otherPlayer)
                      (Player.isInfected otherPlayer)) s in
        let player' :=
          Player.set_collidingWith (Some (Player.id otherPlayer)) player in
        let otherPlayer' :=
          Player.set_collidingWith (Some (Player.id player')) otherPlayer in
        let s := set_players (<[i := (otherWs, otherPlayer')]> (players s)) s in
        (player', pauseTimer s)
      else (player, s)
  | None => (player, s)
  end.

Definition collisionLoop (ws : Channel) (player : Player) (s : Server)
  : Player * Server :=
  fold_left (collisionStep ws) (seq 0 (length (players s))) (player, s).

(** [Math.max(0, Math.min(v, ARENA_WIDTH - PLAYER_SIZE))], and the same
    with the height. *)
Definition clampX (v : JSnum) : JSnum :=
  Math_max (Num 0) (Math_min v (Num (ARENA_WIDTH - PLAYER_SIZE))).
Definition clampY (v : JSnum) : JSnum :=
  Math_max (Num 0) (Math_min v (Num (ARENA_HEIGHT - PLAYER_SIZE))).

(** The mover's record after the position update, the clamp, the
    optional infection sync and the reset of [collidingWith]
    (lines 234-254).  [dx] and [dy] are added as they come: no [typeof]
    guards them. *)
Definition movedPlayer (dx dy : JSvalue) (isInfected : option bool)
    (player : Player) : Player :=
  let player := Player.set_x (JSplus (Player.x player) dx) player in
  let player := Player.set_y (JSplus (Player.y player) dy) player in
  let player := Player.set_x (clampX (Player.x player)) player in
  let player := Player.set_y (clampY (Player.y player)) player in
  let player :=
    match isInfected with
    | Some b => Player.set_isInfected b player
    | None => player
    end in
  Player.set_collidingWith None player.

(** The mover's record is the object held by the registry; the handler
    works on it through the local [player] and the registry sees the
    result at [players.set(ws, player)].  Nothing reads the mover's
    registry entry in between. *)
Definition moveHandler (ws : Channel) (dx dy : JSvalue)
    (isInfected : option bool)
    (now : Z) (s : Server) : Server :=
  match Map_get ws (players s) with
  | None => s
  | Some player =>
      let player := movedPlayer dx dy isInfected player in
      let '(player, s) := collisionLoop ws player s in
      let s := set_players (Map_set ws player (players s)) s in
      broadcastPlayers players_update now s
  end.

(** *** resetAllPositions (lines 367-493) *)

(** The positions of the registry whose record satisfies [f]: the
    objects kept by [allPlayers.filter(f)]. *)
Definition filterIndices (f : Player -> bool) (m : Registry) : list nat :=
  List.filter
    (fun i => match m !! i with Some (_, p) => f p | None => false end)
    (seq 0 (length m)).

Definition failedToPlace (zone : Zone) (name : option string) : ConsoleLine :=
  match zone with
  | Center => FailedInfected name
  | Edge => FailedRegular name
  end.

(** The body of [for (const player of infectedPlayers)] (and of the
    loop over [regularPlayers]) for the record at position [i]. *)
Definition placePlayer (zone : Zone) (acc : list Player * Server) (i : nat)
  : list Player * Server :=
  let '(placedPlayers, s) := acc in
  match players s !! i with
  | Some (ws, player) =>
      match spawnLoop zone player placedPlayers MAX_SPAWN_ATTEMPTS
              (randomCalls s) with
      | (Some (x, y), k) =>
          let player' :=
            Player.set_collidingWith None
              (Player.set_y (Num y) (Player.set_x (Num x) player)) in
          let s := set_randomCalls k s in
          let s := set_players (<[i := (ws, player')]> (players s)) s in
          (placedPlayers ++ [player'], s)
      | (None, k) =>
          let s := set_randomCalls k s in
          (placedPlayers, console_log (failedToPlace zone (Player.name player)) s)
      end
  | None => (placedPlayers, s)
  end.

Definition resetAllPositions (s : Server) : Server :=
  let placedPlayers : list Player := [] in
  let infectedPlayers := filterIndices Player.isInfected (players s) in
  let regularPlayers :=
    filterIndices (fun p => negb (Player.isInfected p)) (players s) in
  let acc := fold_left (placePlayer Center) infectedPlayers (placedPlayers, s) in
  let acc := fold_left (placePlayer Edge) regularPlayers acc in
  acc.2.

(** *** player:infect, answer:correct, answer:feedback (lines 277-315) *)

Definition infectHandler (playerId : string) (now : Z) (s : Server) : Server :=
  let s :=
    set_players
      (map (fun e : Channel * Player =>
              if String.eqb (Player.id e.2) playerId
              then (e.1, Player.set_isInfected true e.2) else e)
           (players s)) s in
  let s := resetAllPositions s in
  let s := broadcastPlayers players_reset now s in
  resumeTimer s.

Definition answerCorrectHandler (now : Z) (s : Server) : Server :=
  let s := resetAllPositions s in
  let s := broadcastPlayers players_reset now s in
  resumeTimer s.

Definition feedbackHandler (playerId playerName : string) (isCorrect : bool)
    (s : Server) : Server :=
  sendAll (AnswerFeedback playerId playerName isCorrect) s.

(** ** The websocket callbacks (lines 93-323) *)

(** A parsed inbound message.  [move] carries [dx] and [dy] as parsed,
    and [isInfected] only when the client sent a boolean. *)
Inductive Message : Type :=
| join (player : Player)
| game_start
| game_stop
| player_gender (playerId : string) (gender : option string)
| move (dx dy : JSvalue) (isInfected : option bool)
| player_infect (playerId : string)
| answer_correct
| answer_feedback (playerId playerName : string) (isCorrect : bool)
| other_type (type : string).

Definition message (ws : Channel) (data : Message) (now : Z) (s : Server)
  : Server :=
  match data with
  | join player => joinHandler ws player now s
  | game_start => startTimer s
  | game_stop => stopTimer s
  | player_gender playerId gender => genderHandler playerId gender now s
  | move dx dy isInfected => moveHandler ws dx dy isInfected now s
  | player_infect playerId => infectHandler playerId now s
  | answer_correct => answerCorrectHandler now s
  | answer_feedback playerId playerName isCorrect =>
      feedbackHandler playerId playerName isCorrect s
  | other_type _ => s
  end.

Definition open (ws : Channel) (s : Server) : Server :=
  console_log ClientConnected s.

Definition close (ws : Channel) (now : Z) (s : Server) : Server :=
  let s := set_players (Map_delete ws (players s)) s in
  let s := broadcastPlayersImmediate players_update now s in
  console_log ClientDisconnected s.

(** ** The event loop *)

(** One callback run to completion.  The interval callback runs only
    while the interval is set, the deferred broadcast only while its
    timeout is pending and not before it is due. *)
Inductive step : Server -> Server -> Prop :=
| step_open ws s : step s (open ws s)
| step_message ws data now s : step s (message ws data now s)
| step_close ws now s : step s (close ws now s)
| step_tick s : timerInterval s = true -> step s (timerTick s)
| step_deferred due now s :
    broadcastTimeout s = Some due -> (due <= now)%Z ->
    step s (deferredBroadcast now s).

Inductive reachable : Server -> Prop :=
| reachable_initial : reachable initial
| reachable_step s s' : reachable s -> step s s' -> reachable s'.

End Handlers.

(** The placement loop is unrolled only on request. *)
Arguments spawnLoop Math_random zone player placedPlayers attemptsLeft k
  : simpl never.

(** * Vocabulary of the properties *)

(** The JS number [v] is the number [q]. *)
Definition is_num (v : JSnum) (q : Q) : Prop :=
  match v with
  | Num q' => (q' == q)%Q
  | NaN => False
  end.

(** The JS number [v] is a number of the interval from [lo] to [hi]. *)
Definition num_within (lo hi : Q) (v : JSnum) : Prop :=
  match v with
  | Num q => (lo <= q <= hi)%Q
  | NaN => False
  end.

(** Both positions are numbers, and the open rectangles of width [w]
    and height [h] anchored at them meet. *)
Definition rectangles_meet (w h : Q) (a b : Player) : Prop :=
  exists ax ay bx by',
    Player.x a = Num ax /\ Player.y a = Num ay /\
    Player.x b = Num bx /\ Player.y b = Num by' /\
    (ax < bx + w /\ bx < ax + w /\ ay < by' + h /\ by' < ay + h)%Q.

(** Two records that differ at most in [collidingWith]. *)
Definition same_but_collidingWith (p q : Player) : Prop :=
  q = Player.set_collidingWith (Player.collidingWith q) p.

(** What one call of [broadcastTimer] sends: one [timer:update] to each
    connection of the registry [m], in registry order. *)
Definition timerBroadcast (timer : Z) (running paused : bool) (m : Registry)
  : list (Channel * OutMsg) :=
  map (fun ws => (ws, TimerUpdate timer running paused)) (Map_keys m).

(** What one roster emission sends: the roster of [m], as
    [players:update], to each connection of [m]. *)
Definition rosterBroadcast (type : string) (m : Registry)
  : list (Channel * OutMsg) :=
  map (fun ws => (ws, PlayersMsg type (Map_values m))) (Map_keys m).

(** A throttled trigger: [broadcastPlayers()] with its default type. *)
Abbreviation trigger := (broadcastPlayers players_update).

(** Does the mover [m], on connection [ws], collide with registry entry
    [e]?  The entry under the mover's own connection is skipped. *)
Definition collides (ws : Channel) (m : Player) (e : Channel * Player) : bool :=
  negb (Nat.eqb e.1 ws) && isColliding m e.2.

(** The entry after the pass. *)
Definition marked (ws : Channel) (m : Player) (e : Channel * Player)
  : Channel * Player :=
  if collides ws m e
  then (e.1, Player.set_collidingWith (Some (Player.id m)) e.2)
  else e.

(** The id of the last entry of [l] the mover collides with, or [d]. *)
Definition lastCollider (ws : Channel) (m : Player) (l : Registry)
    (d : option string) : option string :=
  match last (List.filter (collides ws m) l) with
  | Some e => Some (Player.id e.2)
  | None => d
  end.

(** The fields the collision pass and the placement never write. *)
Definition same_clock_and_throttle (s s' : Server) : Prop :=
  gameTimer s' = gameTimer s /\ gameRunning s' = gameRunning s /\
  timerInterval s' = timerInterval s /\
  lastBroadcastTime s' = lastBroadcastTime s /\
  broadcastPending s' = broadcastPending s /\
  broadcastTimeout s' = broadcastTimeout s.

(** The sweep as one pass over its work list: the infected records with
    the centre zone, then the others with the edge zone. *)
Definition sweepOrder (s : Server) : list (Zone * nat) :=
  map (pair Center) (filterIndices Player.isInfected (players s)) ++
  map (pair Edge)
    (filterIndices (fun p => negb (Player.isInfected p)) (players s)).

(** The two [for] loops of the sweep, run over a work list. *)
Definition sweep (Math_random : nat -> Q) (work : list (Zone * nat))
    (acc : list Player * Server) : list Player * Server :=
  fold_left (fun acc w => placePlayer Math_random w.1 acc w.2) work acc.

(** The three states of the specification; the fourth combination of
    the two flags has no name there. *)
Inductive TimerState : Type := Idle | Running | Paused.

Definition timerState (s : Server) : option TimerState :=
  match gameRunning s, gamePaused s with
  | false, false => Some Idle
  | true, false => Some Running
  | true, true => Some Paused
  | false, true => None
  end.

(** The timer as a whole: counter, running, paused, and whether the
    interval is set. *)
Definition timerFields (s : Server) : Z * bool * bool * bool :=
  (gameTimer s, gameRunning s, gamePaused s, timerInterval s).

(** What holds of the timer in every reachable state. *)
Definition timer_wf (s : Server) : Prop :=
  gameRunning s = timerInterval s /\
  (1 <= gameTimer s <= 20)%Z /\
  (gameRunning s = false -> gameTimer s = 20%Z).

(** The roster messages a connection has been sent. *)
Definition rosterEmissions (ws : Channel) (log : list (Channel * OutMsg))
  : nat :=
  length
    (List.filter
       (fun e : Channel * OutMsg =>
          match e.2 with
          | PlayersMsg _ _ => Nat.eqb e.1 ws
          | _ => false
          end) log).

(** * Concrete runs *)

(** A source of randomness that always returns 0: every centre
    candidate is (500, 225), every edge candidate is (80, 0). *)
Definition always0 : nat -> Q := fun _ => 0%Q.

Definition alice : Player :=
  Player.mk "alice" (Num 0) (Num 0) false (Some "Alice"%string) None None.
Definition bob : Player :=
  Player.mk "bob" (Num 0) (Num 0) true (Some "Bob"%string) None None.
Definition carol : Player :=
  Player.mk "carol" (Num 0) (Num 0) true (Some "Carol"%string) None None.

(** Alice (healthy) joins on connection 0, Bob (infected) on 1. *)
Definition twoPlayers : Server :=
  message always0 1 (join bob) 1001
    (message always0 0 (join alice) 1000 initial).

(** Alice walks onto Bob while no round is running. *)
Definition collidedWhileIdle : Server :=
  message always0 0 (move (JSnumber 420) (JSnumber 225) None) 1002 twoPlayers.

(** Bob and Carol (both infected) join; Carol steps aside. *)
Definition twoInfected : Server :=
  message always0 1 (move (JSnumber (-100)) (JSnumber 0) None) 1002
    (message always0 1 (join carol) 1001
       (message always0 0 (join bob) 1000 initial)).

(** Alice alone, a round started, 19 ticks gone: the counter is at 1. *)
Definition lastSecond : Server :=
  Nat.iter 19 timerTick
    (message always0 0 game_start 1001
       (message always0 0 (join alice) 1000 initial)).

(** Alice joined at clock 1000; she moves at 1060 and at 1070, and the
    deferred broadcast fires at 1110. *)
Definition twoMoves : Server :=
  message always0 0 (move (JSnumber 5) (JSnumber 0) None) 1070
    (message always0 0 (move (JSnumber 5) (JSnumber 0) None) 1060
       (message always0 0 (join alice) 1000 initial)).

(** Bob and Carol as the registry of [twoInfected] holds them. *)
Definition bob0 : Player :=
  Eval vm_compute in default bob (snd <$> players twoInfected !! 0%nat).
Definition carol0 : Player :=
  Eval vm_compute in default carol (snd <$> players twoInfected !! 1%nat).

(** Alice as the registry of [twoPlayers] holds her, at (80, 0). *)
Definition alice0 : Player :=
  Eval vm_compute in default alice (Map_get 0 (players twoPlayers)).



(** Alice, of [twoPlayers], sends a move whose payload has no [dx]. *)
Definition movedWithoutDx : Server :=
  message always0 0 (move JSundefined (JSnumber 5) None) 1002 twoPlayers.

(** A second connection joins under Alice's id. *)
Definition twoAlices : Server :=
  message always0 1 (join alice) 1001
    (message always0 0 (join alice) 1000 initial).

(** * Vocabulary of the further properties *)

(** The values [Math.random()] can return. *)
Definition unit_random (Math_random : nat -> Q) : Prop :=
  forall n, (0 <= Math_random n < 1)%Q.

(** A position a square of side PLAYER_SIZE fits at inside the arena. *)
Definition in_arena (p : Player) : Prop :=
  num_within 0 (ARENA_WIDTH - PLAYER_SIZE) (Player.x p) /\
  num_within 0 (ARENA_HEIGHT - PLAYER_SIZE) (Player.y p).

(** Calls of [Math.random()] made for one candidate of a zone. *)
Definition draws (zone : Zone) : nat :=
  match zone with Center => 2 | Edge => 3 end.

(** The [j]-th candidate of a placement loop started at call [k]. *)
Definition nthCandidate (Math_random : nat -> Q) (zone : Zone) (k j : nat)
  : Q * Q :=
  (candidate Math_random zone (k + draws zone * j)).1.

(** Does the record [player], put at [pos], overlap a placed player? *)
Definition overlapsPlaced (player : Player) (placedPlayers : list Player)
    (pos : Q * Q) : bool :=
  existsb
    (isOverlapping (Player.set_y (Num pos.2) (Player.set_x (Num pos.1) player)))
    placedPlayers.

(** The placement a join makes: the position found, or the fallback of
    the player's zone. *)
Definition joinPosition (Math_random : nat -> Q) (player : Player)
    (s : Server) : Q * Q :=
  default
    (if Player.isInfected player
     then ((ARENA_WIDTH / 2 - PLAYER_SIZE / 2)%Q,
           (ARENA_HEIGHT / 2 - PLAYER_SIZE / 2)%Q)
     else (EDGE_MARGIN, EDGE_MARGIN))
    (spawnLoop Math_random
       (if Player.isInfected player then Center else Edge) player
       (Map_values (players s)) MAX_SPAWN_ATTEMPTS (randomCalls s)).1.

Definition joinedPlayer (Math_random : nat -> Q) (player : Player)
    (s : Server) : Player :=
  Player.set_y (Num (joinPosition Math_random player s).2)
    (Player.set_x (Num (joinPosition Math_random player s).1) player).

(** A coordinate as a move can leave it: NaN, or a number of the
    interval from [lo] to [hi]. *)
Definition NaN_or_within (lo hi : Q) (v : JSnum) : Prop :=
  match v with
  | Num q => (lo <= q <= hi)%Q
  | NaN => True
  end.

(** A position inside the arena, but for the coordinates that are NaN. *)
Definition in_arena_or_NaN (p : Player) : Prop :=
  NaN_or_within 0 (ARENA_WIDTH - PLAYER_SIZE) (Player.x p) /\
  NaN_or_within 0 (ARENA_HEIGHT - PLAYER_SIZE) (Player.y p).

(** Every record of a registry satisfies [P]. *)
Definition registry_all (P : Player -> Prop) (m : Registry) : Prop :=
  Forall (fun e : Channel * Player => P e.2) m.

(** Every record of a registry stands inside the arena. *)
Definition registry_in_arena (m : Registry) : Prop :=
  registry_all in_arena m.

(** The throttle flag is set exactly while a timeout is held. *)
Definition throttle_wf (s : Server) : Prop :=
  broadcastPending s =
    match broadcastTimeout s with Some _ => true | None => false end.

(** Two records of one player: equal but for position and
    [collidingWith]. *)
Definition same_identity (p q : Player) : Prop :=
  Player.id q = Player.id p /\ Player.isInfected q = Player.isInfected p /\
  Player.name q = Player.name p /\ Player.gender q = Player.gender p.

(** * Properties *)

(** ** Numbers and geometry *)

Lemma Qltb_lt (a b : Q) : Qltb a b = true <-> (a < b)%Q.
Proof.
  unfold Qltb. rewrite negb_true_iff, <- not_true_iff_false, Qle_bool_iff.
  split; [apply Qnot_le_lt | apply Qlt_not_le].
Qed.

(** The four comparisons of a hit test: true exactly when all four
    coordinates are numbers and the rectangles meet. *)
Lemma hit_test_true (w h : Q) (a b : Player) :
  JSlt (Player.x a) (JSadd (Player.x b) (Num w)) &&
  JSgt (JSadd (Player.x a) (Num w)) (Player.x b) &&
  JSlt (Player.y a) (JSadd (Player.y b) (Num h)) &&
  JSgt (JSadd (Player.y a) (Num h)) (Player.y b) = true <->
  rectangles_meet w h a b.
Proof.
  unfold rectangles_meet.
  destruct (Player.x a) as [ax |], (Player.y a) as [ay |],
    (Player.x b) as [bx |], (Player.y b) as [by' |];
    cbn [JSlt JSgt JSadd]; rewrite ?andb_false_r; cbn [andb];
    try (split; [discriminate |];
         intros (? & ? & ? & ? & ? & ? & ? & ? & _); discriminate).
  rewrite !andb_true_iff, !Qltb_lt. split.
  - intros (((H1 & H2) & H3) & H4). by exists ax, ay, bx, by'.
  - intros (? & ? & ? & ? & [= <-] & [= <-] & [= <-] & [= <-] & H). tauto.
Qed.

Lemma isColliding_true (a b : Player) :
  isColliding a b = true <->
  rectangles_meet 24 40 a b /\
  Player.isInfected a <> Player.isInfected b.
Proof.
  unfold isColliding. cbv zeta.
  rewrite andb_true_iff, hit_test_true, negb_true_iff.
  rewrite <- not_true_iff_false, eqb_true_iff. tauto.
Qed.

Lemma open_intervals_meet (a b w : Q) :
  (a < b + w -> b < a + w -> 0 < w ->
   exists p, a < p /\ p < a + w /\ b < p /\ p < b + w)%Q.
Proof.
  intros Hab Hba Hw.
  destruct (Qlt_le_dec a b) as [Hlt | Hle].
  - exists ((b + (a + w)) / 2)%Q.
    assert (E : ((b + (a + w)) / 2 == (b + (a + w)) * (1 # 2))%Q) by reflexivity.
    rewrite E. repeat split; lra.
  - exists ((a + (b + w)) / 2)%Q.
    assert (E : ((a + (b + w)) / 2 == (a + (b + w)) * (1 # 2))%Q) by reflexivity.
    rewrite E. repeat split; lra.
Qed.

Lemma reduced_hitboxes_intersect_iff (a b : Player) :
  reduced_hitboxes_intersect a b <-> rectangles_meet 24 40 a b.
Proof.
  unfold reduced_hitboxes_intersect, in_reduced_hitbox, rectangles_meet.
  split.
  - intros (px & py & (ax & ay & Eax & Eay & A1 & A2 & A3 & A4)
                    & (bx & by' & Ebx & Eby & B1 & B2 & B3 & B4)).
    exists ax, ay, bx, by'. repeat split; try done; lra.
  - intros (ax & ay & bx & by' & Eax & Eay & Ebx & Eby & H1 & H2 & H3 & H4).
    destruct (open_intervals_meet ax bx 24%Q) as (px & ?);
      [lra | lra | lra |].
    destruct (open_intervals_meet ay by' 40%Q) as (py & ?);
      [lra | lra | lra |].
    exists px, py. split.
    + exists ax, ay. intuition.
    + exists bx, by'. intuition.
Qed.

(** C4.  [isColliding a b] holds exactly when the two 24 x 40 rectangles
    anchored at the stored positions strictly intersect and the two
    infection flags differ; players with equal flags never collide,
    wherever they stand. *)
Theorem isColliding_iff_intersect_and_differ (a b : Player) :
  (isColliding a b = true <->
     reduced_hitboxes_intersect a b /\
     Player.isInfected a <> Player.isInfected b) /\
  (Player.isInfected a = Player.isInfected b -> isColliding a b = false).
Proof.
  split.
  - rewrite isColliding_true, reduced_hitboxes_intersect_iff. tauto.
  - intros Heq. apply not_true_iff_false. rewrite isColliding_true. tauto.
Qed.

(** ** The registry *)

Lemma Map_get_set_eq (ws : Channel) (p : Player) (m : Registry) :
  Map_get ws (Map_set ws p m) = Some p.
Proof.
  induction m as [| [k v] m IH]; simpl.
  - by rewrite Nat.eqb_refl.
  - destruct (Nat.eqb k ws) eqn:E; simpl; rewrite ?Nat.eqb_refl, ?E; done.
Qed.

Lemma Map_get_Some_lookup (ws : Channel) (p : Player) (m : Registry) :
  Map_get ws m = Some p -> exists i, m !! i = Some (ws, p).
Proof.
  induction m as [| [k v] m IH]; simpl; [done |].
  destruct (Nat.eqb k ws) eqn:E.
  - intros [= ->]. apply Nat.eqb_eq in E as ->. by exists 0%nat.
  - intros H. destruct (IH H) as [i Hi]. by exists (S i).
Qed.


(** A fold keeps what each of its steps keeps. *)
Lemma fold_left_preserves {A B : Type} (P : A -> Prop) (f : A -> B -> A)
    (l : list B) (a : A) :
  P a -> (forall a b, P a -> P (f a b)) -> P (fold_left f l a).
Proof.
  intros Ha Hf. revert a Ha. induction l as [| b l IH]; simpl; auto.
Qed.

(** ** The clamp of the move handler *)

Lemma clampX_range (q : Q) :
  num_within 0 (ARENA_WIDTH - 64) (clampX (Num q)).
Proof.
  unfold clampX. cbn [Math_max Math_min num_within]. split.
  - apply Q.le_max_l.
  - apply Q.max_lub; [done |]. apply Q.le_min_r.
Qed.

Lemma clampY_range (q : Q) :
  num_within 0 (ARENA_HEIGHT - 64) (clampY (Num q)).
Proof.
  unfold clampY. cbn [Math_max Math_min num_within]. split.
  - apply Q.le_max_l.
  - apply Q.max_lub; [done |]. apply Q.le_min_r.
Qed.

(** The sum of a stored coordinate and a payload field is a number
    exactly when both are. *)
Lemma JSplus_Num (a : JSnum) (v : JSvalue) (x d : Q) :
  a = Num x -> ToNumber v = Num d -> JSplus a v = Num (x + d).
Proof. unfold JSplus. by intros -> ->. Qed.

Lemma JSplus_NaN (a : JSnum) (v : JSvalue) :
  a = NaN \/ ToNumber v = NaN -> JSplus a v = NaN.
Proof. unfold JSplus. intros [-> | ->]; [done | by destruct a]. Qed.

(** ** The collision pass: what it leaves alone *)

Lemma same_but_collidingWith_refl (p : Player) : same_but_collidingWith p p.
Proof. by destruct p. Qed.

Lemma same_but_collidingWith_set (p q : Player) (c : option string) :
  same_but_collidingWith p q ->
  same_but_collidingWith p (Player.set_collidingWith c q).
Proof. unfold same_but_collidingWith. intros ->. by destruct p. Qed.

Lemma isColliding_set_collidingWith_l (c : option string) (a b : Player) :
  isColliding (Player.set_collidingWith c a) b = isColliding a b.
Proof. done. Qed.

Lemma isColliding_set_collidingWith_r (c : option string) (a b : Player) :
  isColliding a (Player.set_collidingWith c b) = isColliding a b.
Proof. done. Qed.

Lemma collisionStep_mover (ws : Channel) (m : Player) (acc : Player * Server)
    (i : nat) :
  same_but_collidingWith m acc.1 ->
  same_but_collidingWith m (collisionStep ws acc i).1.
Proof.
  destruct acc as [player s]. unfold collisionStep. simpl. intros H.
  destruct (players s !! i) as [[otherWs otherPlayer] |]; [| done].
  destruct (Nat.eqb otherWs ws); [done |].
  destruct (isColliding player otherPlayer); [| done].
  by apply same_but_collidingWith_set.
Qed.

Lemma collisionLoop_mover (ws : Channel) (m : Player) (s : Server) :
  same_but_collidingWith m (collisionLoop ws m s).1.
Proof.
  unfold collisionLoop.
  apply (fold_left_preserves (fun acc => same_but_collidingWith m acc.1)).
  - apply same_but_collidingWith_refl.
  - intros acc i. apply collisionStep_mover.
Qed.

Lemma broadcastPlayers_players (type : string) (now : Z) (s : Server) :
  players (broadcastPlayers type now s) = players s.
Proof.
  unfold broadcastPlayers.
  destruct (negb (String.eqb type players_update)); [done |].
  destruct (BROADCAST_RATE <=? now - lastBroadcastTime s)%Z; simpl.
  - by destruct (broadcastTimeout s).
  - by destruct (negb (broadcastPending s)).
Qed.

Section MoveHandler.

Variable Math_random : nat -> Q.

(** C9.  A move on a connection that has no player record is dropped:
    the whole server state (registry, records, timer, throttle, what
    was sent) is the one before. *)
Theorem move_unregistered_dropped (ws : Channel) (dx dy : JSvalue)
    (isInfected : option bool) (now : Z) (s : Server) :
  Map_get ws (players s) = None ->
  message Math_random ws (move dx dy isInfected) now s = s.
Proof. simpl. unfold moveHandler. by intros ->. Qed.

(** C3.  After a move of a registered player the stored position is
    the clamped sum of the stored position and the payload's dx, dy.
    Where the stored coordinate is a number and the payload field
    converts to a number, the new coordinate is a number with
    0 <= x <= ARENA_WIDTH - 64 (0 <= y <= ARENA_HEIGHT - 64), however
    large the step; where the stored coordinate is NaN or the field is
    absent, the new coordinate is NaN, which no bound holds of. *)
Theorem move_position_in_arena (ws : Channel) (player : Player)
    (dx dy : JSvalue) (isInfected : option bool) (now : Z) (s : Server) :
  Map_get ws (players s) = Some player ->
  exists player',
    Map_get ws (players (message Math_random ws (move dx dy isInfected) now s))
      = Some player' /\
    Player.x player' = clampX (JSplus (Player.x player) dx) /\
    Player.y player' = clampY (JSplus (Player.y player) dy) /\
    (forall x d, Player.x player = Num x -> ToNumber dx = Num d ->
       num_within 0 (ARENA_WIDTH - 64) (Player.x player')) /\
    (forall y d, Player.y player = Num y -> ToNumber dy = Num d ->
       num_within 0 (ARENA_HEIGHT - 64) (Player.y player')) /\
    (Player.x player = NaN \/ ToNumber dx = NaN -> Player.x player' = NaN) /\
    (Player.y player = NaN \/ ToNumber dy = NaN -> Player.y player' = NaN).
Proof.
  intros Hget. simpl. unfold moveHandler. rewrite Hget.
  pose proof (collisionLoop_mover ws (movedPlayer dx dy isInfected player) s)
    as Hsame.
  destruct (collisionLoop ws (movedPlayer dx dy isInfected player) s)
    as [player' s'] eqn:Hloop.
  simpl in Hsame. exists player'.
  rewrite broadcastPlayers_players. simpl. rewrite Map_get_set_eq.
  assert (Hx : Player.x player' = clampX (JSplus (Player.x player) dx)).
  { rewrite Hsame. unfold movedPlayer. by destruct isInfected. }
  assert (Hy : Player.y player' = clampY (JSplus (Player.y player) dy)).
  { rewrite Hsame. unfold movedPlayer. by destruct isInfected. }
  split; [done |]. split; [done |]. split; [done |].
  rewrite Hx, Hy. repeat split.
  - intros x d Ex Ed. rewrite (JSplus_Num _ _ x d Ex Ed). apply clampX_range.
  - intros y d Ey Ed. rewrite (JSplus_Num _ _ y d Ey Ed). apply clampY_range.
  - intros H. by rewrite (JSplus_NaN _ _ H).
  - intros H. by rewrite (JSplus_NaN _ _ H).
Qed.

End MoveHandler.

(** ** Comparing server states *)

(** Reduce the projections of updated server states. *)
Ltac server_simpl :=
  cbn [players gameTimer gameRunning gamePaused timerInterval
       lastBroadcastTime broadcastPending broadcastTimeout randomCalls
       sent console
       set_players set_gameTimer set_gameRunning set_gamePaused
       set_timerInterval set_lastBroadcastTime set_broadcastPending
       set_broadcastTimeout set_randomCalls set_sent set_console
       sendAll console_log fst snd] in *.

Lemma Server_eq (s s' : Server) :
  players s = players s' -> gameTimer s = gameTimer s' ->
  gameRunning s = gameRunning s' -> gamePaused s = gamePaused s' ->
  timerInterval s = timerInterval s' ->
  lastBroadcastTime s = lastBroadcastTime s' ->
  broadcastPending s = broadcastPending s' ->
  broadcastTimeout s = broadcastTimeout s' ->
  randomCalls s = randomCalls s' -> sent s = sent s' ->
  console s = console s' -> s = s'.
Proof. destruct s, s'. cbn. intros. by subst. Qed.

(** Compare two server states field by field. *)
Ltac server_ext := apply Server_eq; server_simpl.

(** ** The round timer: the tick *)

Lemma timerTick_expiring (s : Server) :
  gamePaused s = false -> (gameTimer s - 1 <= 0)%Z ->
  timerTick s =
    mkServer (players s) 20 false false false
      (lastBroadcastTime s) (broadcastPending s) (broadcastTimeout s)
      (randomCalls s)
      (sent s
         ++ timerBroadcast (gameTimer s - 1) (gameRunning s) false (players s)
         ++ timerBroadcast 20 false false (players s)
         ++ timerBroadcast 20 false false (players s))
      (console s).
Proof.
  intros Hp Hle. apply Z.leb_le in Hle.
  unfold timerTick. rewrite Hp. simpl. rewrite Hle.
  unfold stopTimer, broadcastTimer, timerBroadcast.
  server_ext; rewrite ?Hp; destruct (timerInterval s) eqn:Hi; server_simpl;
    rewrite ?Hi, <- ?app_assoc; reflexivity.
Qed.

Lemma timerTick_running_on (s : Server) :
  gamePaused s = false -> (0 < gameTimer s - 1)%Z ->
  timerTick s =
    mkServer (players s) (gameTimer s - 1) (gameRunning s) false
      (timerInterval s)
      (lastBroadcastTime s) (broadcastPending s) (broadcastTimeout s)
      (randomCalls s)
      (sent s
         ++ timerBroadcast (gameTimer s - 1) (gameRunning s) false (players s))
      (console s).
Proof.
  intros Hp Hlt. apply Z.leb_gt in Hlt.
  unfold timerTick. rewrite Hp. simpl. rewrite Hlt.
  unfold broadcastTimer, timerBroadcast. server_ext; rewrite ?Hp; reflexivity.
Qed.

(** C6, as the code has it.  A tick that finds the timer not paused
    decrements the counter and broadcasts it.  If the counter is then
    <= 0 the interval is cleared, the counter is back at 20, running and
    paused are false, and two more timer broadcasts follow the
    post-decrement one, both of \{20, false, false\}: the one made by
    [stopTimer] and the one the tick makes itself.  Otherwise the
    post-decrement broadcast is the only one and nothing else changes. *)
Theorem tick_decrements_and_resets_with_two_more_broadcasts (s : Server) :
  gamePaused s = false ->
  let s' := timerTick s in
  let afterDecrement :=
    timerBroadcast (gameTimer s - 1) (gameRunning s) false (players s) in
  let afterReset := timerBroadcast 20 false false (players s) in
  players s' = players s /\
  ((gameTimer s - 1 <= 0)%Z ->
     timerInterval s' = false /\ gameTimer s' = 20%Z /\
     gameRunning s' = false /\ gamePaused s' = false /\
     sent s' = sent s ++ afterDecrement ++ afterReset ++ afterReset) /\
  ((0 < gameTimer s - 1)%Z ->
     timerInterval s' = timerInterval s /\
     gameTimer s' = (gameTimer s - 1)%Z /\
     gameRunning s' = gameRunning s /\ gamePaused s' = false /\
     sent s' = sent s ++ afterDecrement).
Proof.
  intros Hp. cbv zeta. split; [| split].
  - destruct (Z_le_gt_dec (gameTimer s - 1) 0) as [Hle | Hgt].
    + by rewrite timerTick_expiring.
    + rewrite timerTick_running_on; [done | done | lia].
  - intros Hle. by rewrite timerTick_expiring.
  - intros Hlt. by rewrite timerTick_running_on.
Qed.

(** ** The throttler *)

Lemma trigger_emits_at_once (now : Z) (s : Server) :
  (BROADCAST_RATE <= now - lastBroadcastTime s)%Z ->
  trigger now s =
    mkServer (players s) (gameTimer s) (gameRunning s) (gamePaused s)
      (timerInterval s) now false None (randomCalls s)
      (sent s ++ rosterBroadcast players_update (players s)) (console s).
Proof.
  intros H. apply Z.leb_le in H. unfold broadcastPlayers. simpl. rewrite H.
  unfold broadcastPlayersImmediate, rosterBroadcast.
  destruct (broadcastTimeout s) eqn:Ht; server_simpl; rewrite ?Ht;
    server_ext; rewrite ?Ht; reflexivity.
Qed.

Lemma trigger_schedules (now : Z) (s : Server) :
  (now - lastBroadcastTime s < BROADCAST_RATE)%Z ->
  broadcastPending s = false ->
  trigger now s =
    set_broadcastTimeout (Some (lastBroadcastTime s + BROADCAST_RATE)%Z)
      (set_broadcastPending true s).
Proof.
  intros H Hp. apply Z.leb_gt in H. unfold broadcastPlayers. simpl.
  rewrite H, Hp. simpl. server_ext; try reflexivity.
  f_equal. lia.
Qed.

Lemma trigger_while_pending (now : Z) (s : Server) :
  (now - lastBroadcastTime s < BROADCAST_RATE)%Z ->
  broadcastPending s = true ->
  trigger now s = s.
Proof.
  intros H Hp. apply Z.leb_gt in H. unfold broadcastPlayers. simpl.
  by rewrite H, Hp.
Qed.

Lemma deferredBroadcast_emits (now : Z) (s : Server) :
  deferredBroadcast now s =
    mkServer (players s) (gameTimer s) (gameRunning s) (gamePaused s)
      (timerInterval s) now false None (randomCalls s)
      (sent s ++ rosterBroadcast players_update (players s)) (console s).
Proof. reflexivity. Qed.

(** C7, as the code has it.  [s] is the state at the first of two
    throttled triggers, at clock [t1] and [t2]; the registry may change
    after each ([m1], then [m2]); [tf] is the clock when a deferred
    emission fires.
    - Both triggers less than 50ms after the last emission, none pending:
      the first schedules one deferred emission, the second changes
      nothing, and when the timer fires exactly one emission results,
      carrying the roster of that moment.
    - First trigger 50ms or more after the last emission: it is emitted
      at once; a second one less than 50ms later is deferred, so two
      emissions result from two triggers less than 50ms apart.
    - Two triggers 50ms or more apart give two emissions when the first
      is emitted at once, and also when the first is deferred and its
      timer fires before the second trigger.
    - While an emission is pending and less than 50ms have passed since
      the last one, a trigger changes nothing at all; 50ms or more after
      the last emission a trigger emits at once and drops the pending
      timeout. *)
Theorem throttler_two_triggers (s : Server) (t1 t2 tf tf' : Z)
    (m1 m2 m3 : Registry) :
  let last := lastBroadcastTime s in
  let emit := rosterBroadcast players_update in
  (* coalesced: both inside the window opened by the last emission *)
  (broadcastPending s = false ->
   (t1 - last < BROADCAST_RATE)%Z -> (t2 - last < BROADCAST_RATE)%Z ->
   let s1 := set_players m1 (trigger t1 s) in
   let s2 := set_players m2 (trigger t2 s1) in
   sent s1 = sent s /\
   broadcastTimeout s1 = Some (last + BROADCAST_RATE)%Z /\
   trigger t2 s1 = s1 /\
   sent (deferredBroadcast tf s2) = sent s ++ emit m2 /\
   broadcastPending (deferredBroadcast tf s2) = false) /\
  (* first emitted at once, second deferred *)
  ((BROADCAST_RATE <= t1 - last)%Z -> (t2 - t1 < BROADCAST_RATE)%Z ->
   let s1 := set_players m1 (trigger t1 s) in
   let s2 := set_players m2 (trigger t2 s1) in
   sent s1 = sent s ++ emit (players s) /\
   sent s2 = sent s1 /\
   broadcastTimeout s2 = Some (t1 + BROADCAST_RATE)%Z /\
   sent (deferredBroadcast tf s2) = sent s ++ emit (players s) ++ emit m2) /\
  (* 50ms or more apart, both emitted at once *)
  ((BROADCAST_RATE <= t1 - last)%Z -> (BROADCAST_RATE <= t2 - t1)%Z ->
   let s1 := set_players m1 (trigger t1 s) in
   sent (trigger t2 s1) = sent s ++ emit (players s) ++ emit m1) /\
  (* 50ms or more apart, first deferred and fired before the second *)
  (broadcastPending s = false -> (t1 - last < BROADCAST_RATE)%Z ->
   let s1 := set_players m1 (trigger t1 s) in
   let s2 := set_players m2 (deferredBroadcast tf s1) in
   let s3 := set_players m3 (trigger t2 s2) in
   ((BROADCAST_RATE <= t2 - tf)%Z ->
      sent s3 = sent s ++ emit m1 ++ emit m2 /\ broadcastPending s3 = false) /\
   ((t2 - tf < BROADCAST_RATE)%Z ->
      sent (deferredBroadcast tf' s3) = sent s ++ emit m1 ++ emit m3)) /\
  (* a trigger while an emission is pending *)
  (broadcastPending s = true ->
   ((t1 - last < BROADCAST_RATE)%Z -> trigger t1 s = s) /\
   ((BROADCAST_RATE <= t1 - last)%Z ->
      sent (trigger t1 s) = sent s ++ emit (players s) /\
      broadcastPending (trigger t1 s) = false /\
      broadcastTimeout (trigger t1 s) = None)).
Proof.
  cbv zeta. split; [| split; [| split; [| split]]].
  - intros Hp H1 H2.
    rewrite (trigger_schedules t1) by done.
    assert (Hsame : trigger t2
              (set_players m1
                 (set_broadcastTimeout
                    (Some (lastBroadcastTime s + BROADCAST_RATE)%Z)
                    (set_broadcastPending true s)))
            = set_players m1
                (set_broadcastTimeout
                   (Some (lastBroadcastTime s + BROADCAST_RATE)%Z)
                   (set_broadcastPending true s))).
    { apply trigger_while_pending; server_simpl; [lia | reflexivity]. }
    rewrite Hsame, deferredBroadcast_emits. server_simpl. done.
  - intros H1 H2.
    rewrite (trigger_emits_at_once t1) by done.
    rewrite trigger_schedules by (server_simpl; first [lia | reflexivity]).
    rewrite deferredBroadcast_emits. server_simpl.
    rewrite <- app_assoc. done.
  - intros H1 H2.
    rewrite (trigger_emits_at_once t1) by done.
    rewrite trigger_emits_at_once by (server_simpl; lia).
    server_simpl. by rewrite <- app_assoc.
  - intros Hp H1.
    rewrite (trigger_schedules t1) by done.
    rewrite deferredBroadcast_emits. split.
    + intros H2.
      rewrite trigger_emits_at_once by (server_simpl; lia).
      server_simpl. by rewrite <- app_assoc.
    + intros H2.
      rewrite trigger_schedules by (server_simpl; first [lia | reflexivity]).
      rewrite deferredBroadcast_emits. server_simpl.
      by rewrite <- app_assoc.
  - intros Hp. split.
    + intros H1. by apply trigger_while_pending.
    + intros H1. rewrite trigger_emits_at_once by done. done.
Qed.

(** ** The collision pass: what it does *)

Lemma lastCollider_snoc (ws : Channel) (m : Player) (l : Registry)
    (e : Channel * Player) (d : option string) :
  lastCollider ws m (l ++ [e]) d =
    if collides ws m e then Some (Player.id e.2) else lastCollider ws m l d.
Proof.
  unfold lastCollider. rewrite List.filter_app. simpl.
  destruct (collides ws m e).
  - by rewrite last_snoc.
  - by rewrite app_nil_r.
Qed.



Lemma collisionLoop_prefix (ws : Channel) (m : Player) (s : Server) (n : nat) :
  (n <= length (players s))%nat ->
  let acc := fold_left (collisionStep ws) (seq 0 n) (m, s) in
  players acc.2 =
    map (marked ws m) (take n (players s)) ++ drop n (players s) /\
  acc.1 =
    Player.set_collidingWith
      (lastCollider ws m (take n (players s)) (Player.collidingWith m)) m /\
  gamePaused acc.2 =
    gamePaused s || existsb (collides ws m) (take n (players s)) /\
  same_clock_and_throttle s acc.2 /\
  randomCalls acc.2 = randomCalls s.
Proof.
  cbv zeta. induction n as [| n IH]; intros Hn.
  - simpl. rewrite drop_0, orb_false_r. unfold lastCollider. simpl.
    repeat split. by destruct m.
  - destruct IH as (Hps & Hm & Hp & Hfr & Hrc); [lia |].
    rewrite seq_S, fold_left_app. simpl.
    destruct (fold_left (collisionStep ws) (seq 0 n) (m, s)) as [pn sn].
    simpl in Hps, Hm, Hp, Hfr, Hrc.
    destruct (lookup_lt_is_Some_2 (players s) n) as [[ows o] Hlk]; [lia |].
    assert (Hlen : length (map (marked ws m) (take n (players s))) = n).
    { rewrite length_map, length_take. lia. }
    assert (Hcur : players sn !! n = Some (ows, o)).
    { rewrite Hps, lookup_app_r by lia.
      rewrite Hlen, Nat.sub_diag, lookup_drop, Nat.add_0_r. done. }
    assert (Hcol : isColliding pn o = isColliding m o) by by rewrite Hm.
    assert (Hk : collides ws m (ows, o)
                 = negb (Nat.eqb ows ws) && isColliding m o) by done.
    rewrite (take_S_r _ _ _ Hlk), map_app, existsb_app, lastCollider_snoc.
    rewrite (drop_S _ _ _ Hlk) in Hps.
    cbn [map existsb]. rewrite orb_false_r.
    unfold marked at 2. rewrite Hk.
    unfold collisionStep. rewrite Hcur, Hcol.
    destruct Hfr as (? & ? & ? & ? & ? & ?).
    destruct (Nat.eqb ows ws) eqn:Hws; cbn [negb andb fst snd].
    { rewrite orb_false_r, <- app_assoc. repeat split; first [exact Hps | done]. }
    destruct (isColliding m o) eqn:Hc; cbn [fst snd].
    + unfold pauseTimer, broadcastTimer. server_simpl.
      rewrite Hps, Hm, !orb_true_r.
      repeat split; try done.
      rewrite insert_app_r_alt by lia. rewrite Hlen, Nat.sub_diag.
      by rewrite <- app_assoc.
    + rewrite orb_false_r, <- app_assoc.
      repeat split; first [exact Hps | done].
Qed.

Lemma collisionLoop_result (ws : Channel) (m : Player) (s : Server) :
  let acc := collisionLoop ws m s in
  players acc.2 = map (marked ws m) (players s) /\
  acc.1 =
    Player.set_collidingWith
      (lastCollider ws m (players s) (Player.collidingWith m)) m /\
  gamePaused acc.2 = gamePaused s || existsb (collides ws m) (players s) /\
  same_clock_and_throttle s acc.2 /\
  randomCalls acc.2 = randomCalls s.
Proof.
  pose proof (collisionLoop_prefix ws m s (length (players s))) as H.
  rewrite take_ge, drop_all, app_nil_r in H by lia. by apply H.
Qed.

Lemma broadcastPlayers_timer (type : string) (now : Z) (s : Server) :
  let s' := broadcastPlayers type now s in
  gameTimer s' = gameTimer s /\ gameRunning s' = gameRunning s /\
  gamePaused s' = gamePaused s /\ timerInterval s' = timerInterval s.
Proof.
  cbv zeta. unfold broadcastPlayers.
  destruct (negb (String.eqb type players_update)); [done |].
  destruct (BROADCAST_RATE <=? now - lastBroadcastTime s)%Z; simpl.
  - by destruct (broadcastTimeout s).
  - by destruct (negb (broadcastPending s)).
Qed.


Lemma moveHandler_registered (ws : Channel) (player : Player)
    (dx dy : JSvalue) (isInfected : option bool) (now : Z) (s : Server) :
  Map_get ws (players s) = Some player ->
  let m := movedPlayer dx dy isInfected player in
  let s' := moveHandler ws dx dy isInfected now s in
  players s' =
    Map_set ws (Player.set_collidingWith (lastCollider ws m (players s) None) m)
      (map (marked ws m) (players s)) /\
  gamePaused s' = gamePaused s || existsb (collides ws m) (players s) /\
  gameTimer s' = gameTimer s /\ gameRunning s' = gameRunning s /\
  timerInterval s' = timerInterval s.
Proof.
  intros Hget. cbv zeta. unfold moveHandler. rewrite Hget.
  destruct (collisionLoop_result ws (movedPlayer dx dy isInfected player) s)
    as (Hps & Hm & Hp & Hfr & _).
  destruct (collisionLoop ws (movedPlayer dx dy isInfected player) s)
    as [p' s1].
  simpl in *. rewrite broadcastPlayers_players.
  destruct (broadcastPlayers_timer players_update now
              (set_players (Map_set ws p' (players s1)) s1))
    as (-> & -> & -> & ->).
  simpl. rewrite Hps, Hm, Hp.
  destruct Hfr as (? & ? & ? & _). by destruct isInfected.
Qed.

Section CollisionPass.

Variable Math_random : nat -> Q.


End CollisionPass.

(** ** Placement: the reset sweep *)

Section ResetSweep.

Variable Math_random : nat -> Q.

Lemma fold_left_map_pair (z : Zone) (l : list nat) (acc : list Player * Server) :
  sweep Math_random (map (pair z) l) acc
  = fold_left (placePlayer Math_random z) l acc.
Proof.
  unfold sweep. revert acc. induction l as [| i l IH]; intros acc; simpl; auto.
Qed.

Lemma resetAllPositions_sweep (s : Server) :
  resetAllPositions Math_random s
  = (sweep Math_random (sweepOrder s) ([], s)).2.
Proof.
  unfold resetAllPositions, sweepOrder.
  rewrite <- !fold_left_map_pair. unfold sweep. by rewrite fold_left_app.
Qed.

Lemma sweep_app (w1 w2 : list (Zone * nat)) (acc : list Player * Server) :
  sweep Math_random (w1 ++ w2) acc
  = sweep Math_random w2 (sweep Math_random w1 acc).
Proof. apply fold_left_app. Qed.

(** What one placement does, in its two outcomes. *)
Lemma placePlayer_placed (zone : Zone) (placed : list Player) (s : Server)
    (i : nat) (ws : Channel) (p : Player) (x y : Q) (k : nat) :
  players s !! i = Some (ws, p) ->
  spawnLoop Math_random zone p placed MAX_SPAWN_ATTEMPTS (randomCalls s)
    = (Some (x, y), k) ->
  let p' := Player.set_collidingWith None (Player.set_y (Num y) (Player.set_x (Num x) p)) in
  placePlayer Math_random zone (placed, s) i =
    (placed ++ [p'],
     set_players (<[i := (ws, p')]> (players s)) (set_randomCalls k s)).
Proof. intros Hlk Hsp. unfold placePlayer. by rewrite Hlk, Hsp. Qed.

Lemma placePlayer_exhausted (zone : Zone) (placed : list Player) (s : Server)
    (i : nat) (ws : Channel) (p : Player) (k : nat) :
  players s !! i = Some (ws, p) ->
  spawnLoop Math_random zone p placed MAX_SPAWN_ATTEMPTS (randomCalls s)
    = (None, k) ->
  placePlayer Math_random zone (placed, s) i =
    (placed,
     console_log (failedToPlace zone (Player.name p)) (set_randomCalls k s)).
Proof. intros Hlk Hsp. unfold placePlayer. by rewrite Hlk, Hsp. Qed.

Lemma placePlayer_lookup_ne (zone : Zone) (acc : list Player * Server)
    (i j : nat) :
  i <> j ->
  players (placePlayer Math_random zone acc i).2 !! j = players acc.2 !! j.
Proof.
  intros Hne. destruct acc as [placed s]. unfold placePlayer. simpl.
  destruct (players s !! i) as [[ws p] |]; [| done].
  destruct (spawnLoop Math_random zone p placed MAX_SPAWN_ATTEMPTS
              (randomCalls s)) as [[[x y] |] k]; server_simpl; [| done].
  by apply list_lookup_insert_ne.
Qed.

Lemma sweep_lookup_notin (work : list (Zone * nat))
    (acc : list Player * Server) (j : nat) :
  ~ In j (map snd work) ->
  players (sweep Math_random work acc).2 !! j = players acc.2 !! j.
Proof.
  revert acc. induction work as [| [z i] work IH]; intros acc Hnin; [done |].
  simpl in Hnin. unfold sweep in *. simpl. rewrite IH by tauto.
  apply placePlayer_lookup_ne. tauto.
Qed.

(** The sweep writes positions and [collidingWith] only. *)
Lemma placePlayer_frame (zone : Zone) (acc : list Player * Server) (i : nat) :
  let acc' := placePlayer Math_random zone acc i in
  same_clock_and_throttle acc.2 acc'.2 /\
  gamePaused acc'.2 = gamePaused acc.2 /\
  sent acc'.2 = sent acc.2 /\
  Map_keys (players acc'.2) = Map_keys (players acc.2).
Proof.
  destruct acc as [placed s]. unfold placePlayer. simpl.
  destruct (players s !! i) as [[ws p] |] eqn:Hlk; [| done].
  destruct (spawnLoop Math_random zone p placed MAX_SPAWN_ATTEMPTS
              (randomCalls s)) as [[[x y] |] k]; server_simpl; [| done].
  repeat split. unfold Map_keys.
  rewrite list_fmap_insert. simpl.
  apply list_insert_id. by rewrite list_lookup_fmap, Hlk.
Qed.

Lemma sweep_frame (work : list (Zone * nat)) (acc : list Player * Server) :
  let acc' := sweep Math_random work acc in
  same_clock_and_throttle acc.2 acc'.2 /\
  gamePaused acc'.2 = gamePaused acc.2 /\
  sent acc'.2 = sent acc.2 /\
  Map_keys (players acc'.2) = Map_keys (players acc.2).
Proof.
  cbv zeta. unfold sweep.
  apply (fold_left_preserves
           (fun a => same_clock_and_throttle acc.2 a.2 /\
                     gamePaused a.2 = gamePaused acc.2 /\
                     sent a.2 = sent acc.2 /\
                     Map_keys (players a.2) = Map_keys (players acc.2))).
  - done.
  - intros a [z i] (Hf & Hp & Hs & Hk). simpl.
    destruct (placePlayer_frame z a i) as (Hf' & Hp' & Hs' & Hk').
    unfold same_clock_and_throttle in *.
    destruct Hf as (? & ? & ? & ? & ? & ?), Hf' as (? & ? & ? & ? & ? & ?).
    repeat split; congruence.
Qed.

(** Every record is in the work list once. *)
Lemma filterIndices_In (f : Player -> bool) (m : Registry) (i : nat) :
  In i (filterIndices f m) <-> exists ws p, m !! i = Some (ws, p) /\ f p = true.
Proof.
  unfold filterIndices. rewrite filter_In, in_seq. split.
  - intros [_ H]. destruct (m !! i) as [[ws p] |]; [| done]. by exists ws, p.
  - intros (ws & p & Hlk & Hf). split.
    + apply lookup_lt_Some in Hlk. lia.
    + by rewrite Hlk.
Qed.

Lemma sweepOrder_indices_NoDup (s : Server) : NoDup (map snd (sweepOrder s)).
Proof.
  unfold sweepOrder. rewrite map_app, !map_map. simpl. rewrite !map_id.
  apply NoDup_app. split; [| split].
  - unfold filterIndices.
    apply NoDup_ListNoDup, List.NoDup_filter, NoDup_ListNoDup, NoDup_seq.
  - intros i Hi Hr. apply list_elem_of_In in Hi, Hr.
    apply filterIndices_In in Hi as (ws & p & Hlk & Hf).
    apply filterIndices_In in Hr as (ws' & p' & Hlk' & Hf').
    rewrite Hlk in Hlk'. injection Hlk' as <- <-.
    rewrite Hf in Hf'. done.
  - unfold filterIndices.
    apply NoDup_ListNoDup, List.NoDup_filter, NoDup_ListNoDup, NoDup_seq.
Qed.

Lemma sweepOrder_covers (s : Server) (i : nat) (ws : Channel) (p : Player) :
  players s !! i = Some (ws, p) ->
  In ((if Player.isInfected p then Center else Edge), i) (sweepOrder s).
Proof.
  intros Hlk. unfold sweepOrder. apply in_or_app.
  destruct (Player.isInfected p) eqn:Hinf; [left | right];
    apply in_map, filterIndices_In; exists ws, p; by rewrite ?Hinf.
Qed.

(** C10.  In the reset sweep, take the record at position [i] when its
    turn comes: [pre] is the work done before it, [acc] the placed list
    and the state at that moment.  If one of its 100 candidates overlaps
    no placed player, the record ends the sweep at that candidate with
    [collidingWith] null; if all 100 overlap, the record ends the sweep
    as it was before it: same position, same [collidingWith].  Every
    record of the registry gets such a turn. *)
Theorem reset_sweep_placed_or_kept (s : Server) :
  (forall i ws p, players s !! i = Some (ws, p) ->
     exists pre post,
       sweepOrder s =
         pre ++ ((if Player.isInfected p then Center else Edge), i) :: post) /\
  (forall pre zone i post ws p,
     sweepOrder s = pre ++ (zone, i) :: post ->
     players s !! i = Some (ws, p) ->
     let acc := sweep Math_random pre ([], s) in
     let s' := resetAllPositions Math_random s in
     match spawnLoop Math_random zone p acc.1 MAX_SPAWN_ATTEMPTS
             (randomCalls acc.2) with
     | (Some (x, y), _) =>
         players s' !! i =
           Some (ws, Player.set_collidingWith None
                       (Player.set_y (Num y) (Player.set_x (Num x) p)))
     | (None, _) => players s' !! i = Some (ws, p)
     end).
Proof.
  split.
  - intros i ws p Hlk. apply in_split. by eapply sweepOrder_covers.
  - intros pre zone i post ws p Hord Hlk. cbv zeta.
    pose proof (sweepOrder_indices_NoDup s) as Hnd.
    rewrite Hord, map_app in Hnd. simpl in Hnd.
    apply NoDup_app in Hnd as (_ & Hpre & Hnd).
    apply NoDup_cons in Hnd as (Hpost & _).
    assert (Hnpre : ~ In i (map snd pre)).
    { intros Hin. apply list_elem_of_In in Hin.
      apply (Hpre i Hin). left. }
    assert (Hnpost : ~ In i (map snd post)).
    { intros Hin. by apply list_elem_of_In in Hin. }
    rewrite resetAllPositions_sweep, Hord, sweep_app.
    change (sweep Math_random ((zone, i) :: post)
              (sweep Math_random pre ([], s)))
      with (sweep Math_random post
              (placePlayer Math_random zone (sweep Math_random pre ([], s)) i)).
    rewrite sweep_lookup_notin by done.
    pose proof (sweep_lookup_notin pre ([], s) i Hnpre) as Hcur.
    cbn [fst snd] in Hcur. rewrite Hlk in Hcur.
    destruct (sweep Math_random pre ([], s)) as [placed s1].
    cbn [fst snd] in *.
    destruct (spawnLoop Math_random zone p placed MAX_SPAWN_ATTEMPTS
                (randomCalls s1)) as [[[x y] |] k] eqn:Hsp.
    + rewrite (placePlayer_placed _ _ _ _ _ _ _ _ _ Hcur Hsp). server_simpl.
      apply list_lookup_insert_eq. by eapply lookup_lt_Some.
    + rewrite (placePlayer_exhausted _ _ _ _ _ _ _ Hcur Hsp). done.
Qed.

End ResetSweep.

(** ** Placement: the attempts run out *)

Section SpawnExhaustion.

Variable Math_random : nat -> Q.

Lemma joinHandler_players (ws : Channel) (player : Player) (now : Z)
    (s : Server) :
  let zone := if Player.isInfected player then Center else Edge in
  let found :=
    (spawnLoop Math_random zone player (Map_values (players s))
       MAX_SPAWN_ATTEMPTS (randomCalls s)).1 in
  let fallback :=
    if Player.isInfected player
    then ((ARENA_WIDTH / 2 - PLAYER_SIZE / 2)%Q,
          (ARENA_HEIGHT / 2 - PLAYER_SIZE / 2)%Q)
    else (EDGE_MARGIN, EDGE_MARGIN) in
  let position := default fallback found in
  players (joinHandler Math_random ws player now s) =
    Map_set ws (Player.set_y (Num position.2) (Player.set_x (Num position.1) player))
      (players s) /\
  console (joinHandler Math_random ws player now s) = console s.
Proof.
  cbv zeta. unfold joinHandler.
  destruct (Player.isInfected player);
    destruct (spawnLoop Math_random _ player (Map_values (players s))
                MAX_SPAWN_ATTEMPTS (randomCalls s)) as [[[x y] |] k];
    split; reflexivity.
Qed.

(** C5, as the code has it.  In the join flow, when all 100 candidates
    overlap a placed player the joining record is stored at the fixed
    fallback: (568, 268) for an infected player, (80, 80) for a healthy
    one, whatever stands there; the handler completes and writes nothing
    to the console.  In the reset sweep there is no fallback position:
    a record whose 100 candidates all overlap is left where it was, is
    not added to the placed list, and a warning is logged. *)
Theorem spawn_exhaustion_outcomes :
  (forall (ws : Channel) (player : Player) (now : Z) (s : Server),
     let zone := if Player.isInfected player then Center else Edge in
     (spawnLoop Math_random zone player (Map_values (players s))
        MAX_SPAWN_ATTEMPTS (randomCalls s)).1 = None ->
     let s' := message Math_random ws (join player) now s in
     exists player',
       Map_get ws (players s') = Some player' /\
       (if Player.isInfected player
        then is_num (Player.x player') 568 /\ is_num (Player.y player') 268
        else is_num (Player.x player') 80 /\ is_num (Player.y player') 80) /\
       console s' = console s) /\
  (forall (zone : Zone) (placed : list Player) (s : Server) (i : nat)
          (ws : Channel) (p : Player),
     players s !! i = Some (ws, p) ->
     (spawnLoop Math_random zone p placed MAX_SPAWN_ATTEMPTS
        (randomCalls s)).1 = None ->
     let acc := placePlayer Math_random zone (placed, s) i in
     players acc.2 = players s /\ acc.1 = placed /\
     console acc.2 = console s ++ [failedToPlace zone (Player.name p)]).
Proof.
  split.
  - intros ws player now s zone Hnone s'. subst s'.
    change (message Math_random ws (join player) now s)
      with (joinHandler Math_random ws player now s).
    destruct (joinHandler_players ws player now s) as [Hps Hc].
    fold zone in Hps. rewrite Hnone in Hps. cbn [default] in Hps.
    rewrite Hps, Map_get_set_eq. eexists. split; [reflexivity |].
    split; [| done].
    destruct (Player.isInfected player);
      cbn [fst snd is_num Player.x Player.y Player.set_x Player.set_y];
      split; reflexivity.
  - intros zone placed s i ws p Hlk Hnone acc. subst acc.
    destruct (spawnLoop Math_random zone p placed MAX_SPAWN_ATTEMPTS
                (randomCalls s)) as [found k] eqn:Hsp.
    cbn [fst] in Hnone. subst found.
    rewrite (placePlayer_exhausted Math_random _ _ _ _ _ _ _ Hlk Hsp).
    done.
Qed.

End SpawnExhaustion.

(** ** player:gender *)

Section Gender.

Variable Math_random : nat -> Q.

(** C8.  While the timer's running flag is set a [player:gender]
    message changes nothing and sends nothing.  Otherwise every record
    whose id is the given one gets the gender (all of them, when several
    records share the id), the other records are kept, and the full
    roster is then sent at once to every connection. *)
Theorem gender_change_guarded (ws : Channel) (playerId : string)
    (gender : option string) (now : Z) (s : Server) :
  let s' := message Math_random ws (player_gender playerId gender) now s in
  (gameRunning s = true -> s' = s) /\
  (gameRunning s = false ->
     (forall i c p, players s !! i = Some (c, p) ->
        players s' !! i =
          Some (c, if String.eqb (Player.id p) playerId
                   then Player.set_gender gender p else p)) /\
     length (players s') = length (players s) /\
     sent s' = sent s ++ rosterBroadcast players_update (players s') /\
     lastBroadcastTime s' = now /\
     gameTimer s' = gameTimer s /\ gameRunning s' = false /\
     gamePaused s' = gamePaused s /\ console s' = console s).
Proof.
  cbv zeta.
  change (message Math_random ws (player_gender playerId gender) now s)
    with (genderHandler playerId gender now s).
  unfold genderHandler. split; intros Hrun; rewrite Hrun; [done |].
  unfold broadcastPlayersImmediate, rosterBroadcast. server_simpl.
  split; [| by rewrite length_map].
  intros i c p Hlk. rewrite list_lookup_fmap, Hlk. cbn.
  by destruct (String.eqb (Player.id p) playerId).
Qed.

End Gender.

(** ** The round timer: the states it can reach *)

Lemma timerState_Some_iff (s : Server) :
  timerState s <> None <-> (gamePaused s = true -> gameRunning s = true).
Proof.
  unfold timerState. destruct (gameRunning s), (gamePaused s); split;
    try done; intros H; by specialize (H eq_refl).
Qed.

Section TimerReachability.

Variable Math_random : nat -> Q.

Lemma joinHandler_timer (ws : Channel) (player : Player) (now : Z)
    (s : Server) :
  timerFields (joinHandler Math_random ws player now s) = timerFields s.
Proof.
  unfold joinHandler.
  destruct (Player.isInfected player);
    destruct (spawnLoop Math_random _ player (Map_values (players s))
                MAX_SPAWN_ATTEMPTS (randomCalls s)) as [[[x y] |] k];
    reflexivity.
Qed.

Lemma genderHandler_timer (playerId : string) (gender : option string)
    (now : Z) (s : Server) :
  timerFields (genderHandler playerId gender now s) = timerFields s.
Proof. unfold genderHandler. destruct (gameRunning s); reflexivity. Qed.

Lemma resetAllPositions_timer (s : Server) :
  timerFields (resetAllPositions Math_random s) = timerFields s.
Proof.
  rewrite resetAllPositions_sweep.
  destruct (sweep_frame Math_random (sweepOrder s) ([], s))
    as ((Ht & Hr & Hi & _) & Hp & _).
  cbn [fst snd] in *. unfold timerFields. by rewrite Ht, Hr, Hi, Hp.
Qed.

Lemma broadcastPlayers_timerFields (type : string) (now : Z) (s : Server) :
  timerFields (broadcastPlayers type now s) = timerFields s.
Proof.
  destruct (broadcastPlayers_timer type now s) as (Ht & Hr & Hp & Hi).
  unfold timerFields. by rewrite Ht, Hr, Hp, Hi.
Qed.

(** After the reset sweep and its broadcast, [resumeTimer] clears
    [paused] and nothing else of the timer. *)
Lemma resume_after_reset_timer (now : Z) (s : Server) :
  timerFields
    (resumeTimer
       (broadcastPlayers players_reset now (resetAllPositions Math_random s)))
  = (gameTimer s, gameRunning s, false, timerInterval s).
Proof.
  destruct (broadcastPlayers_timer players_reset now
              (resetAllPositions Math_random s)) as (Ht & Hr & _ & Hi).
  pose proof (resetAllPositions_timer s) as H.
  unfold timerFields in H. injection H as Ht' Hr' _ Hi'.
  unfold timerFields, resumeTimer, broadcastTimer. server_simpl.
  by rewrite Ht, Hr, Hi, Ht', Hr', Hi'.
Qed.

Lemma infectHandler_timer (playerId : string) (now : Z) (s : Server) :
  timerFields (infectHandler Math_random playerId now s)
  = (gameTimer s, gameRunning s, false, timerInterval s).
Proof. unfold infectHandler. by rewrite resume_after_reset_timer. Qed.

Lemma answerCorrectHandler_timer (now : Z) (s : Server) :
  timerFields (answerCorrectHandler Math_random now s)
  = (gameTimer s, gameRunning s, false, timerInterval s).
Proof. unfold answerCorrectHandler. by rewrite resume_after_reset_timer. Qed.

Lemma moveHandler_timer (ws : Channel) (dx dy : JSvalue) (isInfected : option bool)
    (now : Z) (s : Server) :
  timerFields (moveHandler ws dx dy isInfected now s) =
    match Map_get ws (players s) with
    | Some player =>
        (gameTimer s, gameRunning s,
         gamePaused s
         || existsb (collides ws (movedPlayer dx dy isInfected player))
              (players s),
         timerInterval s)
    | None => timerFields s
    end.
Proof.
  destruct (Map_get ws (players s)) as [player |] eqn:Hget.
  - destruct (moveHandler_registered ws player dx dy isInfected now s Hget)
      as (_ & Hp & Ht & Hr & Hi).
    unfold timerFields. by rewrite Hp, Ht, Hr, Hi.
  - unfold moveHandler. by rewrite Hget.
Qed.

Lemma startTimer_timer (s : Server) :
  timerFields (startTimer s) =
    if timerInterval s then timerFields s
    else (gameTimer s, true, false, true).
Proof. unfold startTimer. destruct (timerInterval s); reflexivity. Qed.

Lemma stopTimer_timer (s : Server) :
  timerFields (stopTimer s) = (20%Z, false, false, false).
Proof.
  unfold stopTimer, timerFields, broadcastTimer.
  destruct (timerInterval s) eqn:Hi; server_simpl; rewrite ?Hi; reflexivity.
Qed.

Lemma timerTick_timer (s : Server) :
  timerFields (timerTick s) =
    if gamePaused s then timerFields s
    else if (gameTimer s - 1 <=? 0)%Z then (20%Z, false, false, false)
    else ((gameTimer s - 1)%Z, gameRunning s, false, timerInterval s).
Proof.
  destruct (gamePaused s) eqn:Hp.
  - unfold timerTick. by rewrite Hp.
  - destruct (gameTimer s - 1 <=? 0)%Z eqn:Hle.
    + apply Z.leb_le in Hle. by rewrite timerTick_expiring.
    + apply Z.leb_gt in Hle. by rewrite timerTick_running_on.
Qed.

(** The timer after one step of the event loop. *)
Lemma step_timer (s s' : Server) :
  step Math_random s s' ->
  timerFields s' = timerFields s \/
  (timerInterval s = false /\
   timerFields s' = (gameTimer s, true, false, true)) \/
  timerFields s' = (20%Z, false, false, false) \/
  timerFields s' = (gameTimer s, gameRunning s, false, timerInterval s) \/
  (timerInterval s = true /\ gamePaused s = false /\
   (0 < gameTimer s - 1)%Z /\
   timerFields s' = ((gameTimer s - 1)%Z, gameRunning s, false, timerInterval s)) \/
  (exists ws dx dy isInfected now player,
     s' = message Math_random ws (move dx dy isInfected) now s /\
     Map_get ws (players s) = Some player /\
     existsb (collides ws (movedPlayer dx dy isInfected player)) (players s)
       = true /\
     timerFields s' = (gameTimer s, gameRunning s, true, timerInterval s)).
Proof.
  intros Hstep. destruct Hstep as [ws s | ws data now s | ws now s | s Hi
                                  | due now s Hdue Hle].
  - by left.
  - destruct data as [player | | | playerId gender | dx dy isInfected
                     | playerId | | playerId playerName isCorrect | type].
    + left. apply joinHandler_timer.
    + cbn [message]. rewrite startTimer_timer.
      destruct (timerInterval s) eqn:Hi; [by left | right; left; done].
    + right; right; left. apply stopTimer_timer.
    + left. apply genderHandler_timer.
    + cbn [message]. pose proof (moveHandler_timer ws dx dy isInfected now s) as H.
      destruct (Map_get ws (players s)) as [player |] eqn:Hget; [| by left].
      destruct (existsb (collides ws (movedPlayer dx dy isInfected player))
                  (players s)) eqn:Hc.
      * do 5 right. exists ws, dx, dy, isInfected, now, player.
        rewrite orb_true_r in H. done.
      * left. rewrite orb_false_r in H. done.
    + do 3 right; left. apply infectHandler_timer.
    + do 3 right; left. apply answerCorrectHandler_timer.
    + by left.
    + by left.
  - by left.
  - rewrite timerTick_timer.
    destruct (gamePaused s) eqn:Hp; [by left |].
    destruct (gameTimer s - 1 <=? 0)%Z eqn:Hle.
    + right; right; left. done.
    + do 4 right; left. apply Z.leb_gt in Hle. done.
  - by left.
Qed.

Lemma step_timer_wf (s s' : Server) :
  timer_wf s -> step Math_random s s' -> timer_wf s'.
Proof.
  intros (Hri & Hrange & H20) Hstep. unfold timer_wf.
  destruct (step_timer s s' Hstep)
    as [H | [[Hi H] | [H | [H | [(Hi & Hp & Hlt & H) | H]]]]].
  - injection H as -> -> _ ->. done.
  - injection H as -> -> _ ->. done.
  - injection H as -> -> _ ->. done.
  - injection H as -> -> _ ->. done.
  - injection H as -> -> _ ->. repeat split; [done | lia | lia |].
    intros Hr. rewrite Hri, Hi in Hr. done.
  - destruct H as (ws & dx & dy & isInfected & now & player & _ & _ & _ & H).
    injection H as -> -> _ ->. done.
Qed.

Lemma reachable_timer_wf (s : Server) :
  reachable Math_random s -> timer_wf s.
Proof.
  induction 1 as [| s s' _ IH Hstep].
  - unfold timer_wf. simpl. repeat split; done.
  - by eapply step_timer_wf.
Qed.

(** C2, as the code has it.  In every reachable state the running flag
    is set exactly while the interval is, and the counter is between 1
    and 20, at 20 when not running.  A step from one of the three states
    of the specification leads to one of them again, with one exception:
    a move that collides while the timer is not running sets paused and
    leaves running false.  So paused does not imply running. *)
Theorem timer_states_reachable (s : Server) :
  reachable Math_random s ->
  timer_wf s /\
  (forall s', step Math_random s s' -> timerState s <> None ->
     timerState s' <> None \/
     (exists ws dx dy isInfected now player,
        s' = message Math_random ws (move dx dy isInfected) now s /\
        Map_get ws (players s) = Some player /\
        existsb (collides ws (movedPlayer dx dy isInfected player))
          (players s) = true /\
        timerState s = Some Idle /\
        gameRunning s' = false /\ gamePaused s' = true)).
Proof.
  intros Hreach. pose proof (reachable_timer_wf s Hreach) as Hwf.
  split; [done |].
  intros s' Hstep Hs. destruct Hwf as (Hri & _ & _).
  rewrite timerState_Some_iff in Hs.
  destruct (step_timer s s' Hstep)
    as [H | [[Hi H] | [H | [H | [(Hi & Hp & Hlt & H) | H]]]]].
  - left. apply timerState_Some_iff. injection H as _ -> -> _. done.
  - left. apply timerState_Some_iff. injection H as _ -> -> _. done.
  - left. apply timerState_Some_iff. injection H as _ -> -> _. done.
  - left. apply timerState_Some_iff. injection H as _ -> -> _. done.
  - left. apply timerState_Some_iff. injection H as _ -> -> _. done.
  - destruct H as (ws & dx & dy & isInfected & now & player & Hs' & Hget & Hc & H).
    injection H as _ Hr Hp _.
    destruct (gameRunning s) eqn:Hrun.
    + left. apply timerState_Some_iff. by rewrite Hr.
    + right. exists ws, dx, dy, isInfected, now, player.
      repeat split; try done.
      unfold timerState. rewrite Hrun.
      destruct (gamePaused s); [by specialize (Hs eq_refl) | done].
Qed.

End TimerReachability.

(** * Witnesses and counterexamples *)

Lemma twoPlayers_reachable : reachable always0 twoPlayers.
Proof.
  unfold twoPlayers.
  repeat first [ apply reachable_initial
               | eapply reachable_step; [| apply step_message] ].
Qed.

Example twoPlayers_roster :
  Map_values (players twoPlayers) =
    [Player.set_y (Num 0)
       (Player.set_x (Num (80 + 0 * (1200 - 2 * 80 - 64))) alice);
     Player.set_y (Num (600 / 2 - 75 + 0 * 150))
       (Player.set_x (Num (1200 / 2 - 100 + 0 * 200)) bob)].
Proof. vm_compute. reflexivity. Qed.

(** ** C2: a collision while idle *)

(** Counterexample to C2 as stated: after two joins and one move the
    server is in a reachable state with running = false and
    paused = true, none of the three states of the specification. *)
Lemma paused_without_running_reachable :
  reachable always0 collidedWhileIdle /\
  gameRunning collidedWhileIdle = false /\
  gamePaused collidedWhileIdle = true /\
  timerState collidedWhileIdle = None /\
  ~ (gamePaused collidedWhileIdle = true ->
     gameRunning collidedWhileIdle = true).
Proof.
  split; [| split; [| split; [| split]]].
  - unfold collidedWhileIdle.
    eapply reachable_step; [apply twoPlayers_reachable | apply step_message].
  - vm_compute. reflexivity.
  - vm_compute. reflexivity.
  - vm_compute. reflexivity.
  - intros H. assert (Hp : gamePaused collidedWhileIdle = true)
      by (vm_compute; reflexivity).
    specialize (H Hp). vm_compute in H. discriminate H.
Qed.

Lemma timer_states_reachable_witness :
  timer_wf twoPlayers /\
  (timerState collidedWhileIdle <> None \/
   gameRunning collidedWhileIdle = false /\
   gamePaused collidedWhileIdle = true).
Proof.
  destruct (timer_states_reachable always0 twoPlayers twoPlayers_reachable)
    as [Hwf Hstep].
  split; [exact Hwf |].
  destruct (Hstep collidedWhileIdle) as [H | H].
  - unfold collidedWhileIdle. apply step_message.
  - vm_compute. discriminate.
  - left. exact H.
  - right. destruct H as (? & ? & ? & ? & ? & ? & _ & _ & _ & _ & Hr & Hp).
    split; assumption.
Defined.

(** ** C6: the tick that reaches zero *)

Lemma reachable_ticks (n : nat) (s : Server) :
  reachable always0 s ->
  forallb (fun k => timerInterval (Nat.iter k timerTick s)) (seq 0 n) = true ->
  reachable always0 (Nat.iter n timerTick s).
Proof.
  intros Hs. induction n as [| n IH]; intros Hall; [exact Hs |].
  rewrite seq_S, forallb_app in Hall. apply andb_true_iff in Hall as [Hn Hlast].
  cbn [Nat.iter]. eapply reachable_step; [by apply IH |].
  apply step_tick. cbn [forallb] in Hlast.
  by rewrite andb_true_r in Hlast.
Qed.

Lemma lastSecond_reachable : reachable always0 lastSecond.
Proof.
  unfold lastSecond. apply reachable_ticks.
  - eapply reachable_step; [| apply step_message].
    eapply reachable_step; [| apply step_message].
    apply reachable_initial.
  - vm_compute. reflexivity.
Qed.

(** Counterexample to C6 as stated: with one client connected, the tick
    that takes the counter from 1 to 0 sends three timer updates, so two
    follow the post-decrement one, not exactly one. *)
Lemma expiring_tick_sends_three :
  reachable always0 lastSecond /\
  gamePaused lastSecond = false /\ gameTimer lastSecond = 1%Z /\
  sent (timerTick lastSecond) =
    sent lastSecond ++
    [(0%nat, TimerUpdate 0 true false);
     (0%nat, TimerUpdate 20 false false);
     (0%nat, TimerUpdate 20 false false)] /\
  sent (timerTick lastSecond) <>
    sent lastSecond ++
    [(0%nat, TimerUpdate 0 true false);
     (0%nat, TimerUpdate 20 false false)].
Proof.
  split; [apply lastSecond_reachable |].
  split; [| split; [| split]].
  - vm_compute. reflexivity.
  - vm_compute. reflexivity.
  - vm_compute. reflexivity.
  - vm_compute. discriminate.
Qed.

Lemma tick_witness :
  gamePaused lastSecond = false /\
  timerInterval (timerTick lastSecond) = false /\
  gameTimer (timerTick lastSecond) = 20%Z.
Proof.
  assert (Hp : gamePaused lastSecond = false) by (vm_compute; reflexivity).
  split; [exact Hp |].
  destruct (tick_decrements_and_resets_with_two_more_broadcasts lastSecond Hp)
    as (_ & Hexp & _).
  destruct Hexp as (Hi & Ht & _).
  - vm_compute. discriminate.
  - split; assumption.
Defined.

(** ** C7: two triggers ten milliseconds apart *)

(** Counterexample to C7 as stated: the two triggers are less than 50ms
    apart, yet two roster emissions result from them (the first at once,
    at 1060, the second when the timeout fires), not exactly one. *)
Lemma two_close_triggers_two_emissions :
  reachable always0 (deferredBroadcast 1110 twoMoves) /\
  (1070 - 1060 < BROADCAST_RATE)%Z /\
  broadcastTimeout twoMoves = Some 1110%Z /\
  rosterEmissions 0
    (sent (message always0 0 (join alice) 1000 initial)) = 1%nat /\
  rosterEmissions 0 (sent (deferredBroadcast 1110 twoMoves)) = 3%nat.
Proof.
  split.
  - eapply reachable_step;
      [| apply (step_deferred always0 1110%Z 1110%Z);
         [vm_compute; reflexivity | lia] ].
    unfold twoMoves.
    do 3 (eapply reachable_step; [| apply step_message]).
    apply reachable_initial.
  - split; [| split; [| split]]; vm_compute; reflexivity.
Qed.

Lemma throttler_two_triggers_witness :
  let s := message always0 0 (join alice) 1040 initial in
  sent (deferredBroadcast 1090 (trigger 1070 (trigger 1060 s))) =
    sent s ++ rosterBroadcast players_update (players s).
Proof.
  cbv zeta.
  destruct (throttler_two_triggers
              (message always0 0 (join alice) 1040 initial)
              1060 1070 1090 0
              (players (message always0 0 (join alice) 1040 initial))
              (players (message always0 0 (join alice) 1040 initial))
              [])
    as (Hcoalesce & _).
  destruct Hcoalesce as (_ & _ & _ & Hsent & _).
  - vm_compute. reflexivity.
  - vm_compute. reflexivity.
  - vm_compute. reflexivity.
  - vm_compute in Hsent. vm_compute. exact Hsent.
Defined.

(** ** C5, C10: a reset sweep that runs out of attempts *)

(** Counterexample to C5 as stated: in the reset sweep started by
    [answer:correct], Bob is placed at (500, 225); all 100 candidates of
    Carol are (500, 225) too and overlap him.  Carol is not moved to the
    fallback (568, 268): she stays at (468, 268), where she stood, and a
    warning is logged. *)
Lemma reset_sweep_has_no_fallback :
  let s' := message always0 0 answer_correct 1003 twoInfected in
  let acc := sweep always0 [(Center, 0%nat)] ([], twoInfected) in
  reachable always0 twoInfected /\
  players twoInfected !! 1%nat = Some (1%nat, carol0) /\
  (spawnLoop always0 Center carol0 acc.1 MAX_SPAWN_ATTEMPTS
     (randomCalls acc.2)).1 = None /\
  players s' !! 1%nat = Some (1%nat, carol0) /\
  is_num (Player.x carol0) 468 /\ is_num (Player.y carol0) 268 /\
  ~ (is_num (Player.x carol0) 568 /\ is_num (Player.y carol0) 268) /\
  console s' = [FailedInfected (Some "Carol"%string)].
Proof.
  cbv zeta. split.
  { unfold twoInfected.
    do 3 (eapply reachable_step; [| apply step_message]).
    apply reachable_initial. }
  repeat split; try (vm_compute; reflexivity).
  intros [H _]. vm_compute in H. discriminate H.
Qed.

Lemma spawn_exhaustion_outcomes_witness :
  let s := message always0 0 (join bob) 1000 initial in
  (spawnLoop always0 Center carol (Map_values (players s))
     MAX_SPAWN_ATTEMPTS (randomCalls s)).1 = None /\
  exists carol',
    Map_get 1 (players (message always0 1 (join carol) 1001 s))
      = Some carol' /\
    is_num (Player.x carol') 568 /\ is_num (Player.y carol') 268.
Proof.
  cbv zeta.
  assert (Hnone :
    (spawnLoop always0 Center carol
       (Map_values (players (message always0 0 (join bob) 1000 initial)))
       MAX_SPAWN_ATTEMPTS
       (randomCalls (message always0 0 (join bob) 1000 initial))).1 = None)
    by (vm_compute; reflexivity).
  split; [exact Hnone |].
  destruct (spawn_exhaustion_outcomes always0) as [Hjoin _].
  destruct (Hjoin 1%nat carol 1001%Z
              (message always0 0 (join bob) 1000 initial) Hnone)
    as (carol' & Hget & Hpos & _).
  exists carol'. split; [exact Hget |]. exact Hpos.
Defined.

Lemma reset_sweep_placed_or_kept_witness :
  let s' := resetAllPositions always0 twoInfected in
  (exists bob', players s' !! 0%nat = Some (0%nat, bob') /\
                Player.collidingWith bob' = None) /\
  players s' !! 1%nat = Some (1%nat, carol0).
Proof.
  cbv zeta.
  destruct (reset_sweep_placed_or_kept always0 twoInfected) as [_ Hturn].
  split.
  - pose proof (Hturn [] Center 0%nat [(Center, 1%nat)] 0%nat bob0
                  ltac:(vm_compute; reflexivity)
                  ltac:(vm_compute; reflexivity)) as H.
    cbv zeta in H.
    destruct (spawnLoop always0 Center bob0
                (sweep always0 [] ([], twoInfected)).1
                MAX_SPAWN_ATTEMPTS
                (randomCalls (sweep always0 [] ([], twoInfected)).2))
      as [[[x y] |] k] eqn:Hsp.
    + eexists. split; [exact H | reflexivity].
    + exfalso. vm_compute in Hsp. discriminate Hsp.
  - pose proof (Hturn [(Center, 0%nat)] Center 1%nat [] 1%nat carol0
                  ltac:(vm_compute; reflexivity)
                  ltac:(vm_compute; reflexivity)) as H.
    cbv zeta in H.
    destruct (spawnLoop always0 Center carol0
                (sweep always0 [(Center, 0%nat)] ([], twoInfected)).1
                MAX_SPAWN_ATTEMPTS
                (randomCalls
                   (sweep always0 [(Center, 0%nat)] ([], twoInfected)).2))
      as [[[x y] |] k] eqn:Hsp.
    + exfalso. vm_compute in Hsp. discriminate Hsp.
    + exact H.
Defined.

(** ** C1, C3, C9: moves *)



(** Counterexample to C3 as stated: Alice sends a move whose payload
    has no [dx].  The sum is NaN, the clamp returns NaN, and NaN is
    stored as her x: no bound holds of it. *)
Lemma move_without_dx_stores_NaN :
  reachable always0 movedWithoutDx /\
  Map_get 0 (players twoPlayers) = Some alice0 /\
  exists alice',
    Map_get 0 (players movedWithoutDx) = Some alice' /\
    Player.x alice' = NaN /\
    ~ num_within 0 (ARENA_WIDTH - 64) (Player.x alice').
Proof.
  split.
  { unfold movedWithoutDx.
    eapply reachable_step; [apply twoPlayers_reachable | apply step_message]. }
  split; [vm_compute; reflexivity |].
  eexists. split; [vm_compute; reflexivity |].
  split; [reflexivity |]. intros H. exact H.
Qed.

Lemma move_position_in_arena_witness :
  Map_get 0 (players twoPlayers) = Some alice0 /\
  exists alice',
    Map_get 0 (players (message always0 0
                          (move (JSnumber 5000) (JSnumber (-7)) None) 1002
                          twoPlayers)) = Some alice' /\
    is_num (Player.x alice') 1136 /\ is_num (Player.y alice') 0.
Proof.
  assert (Hget : Map_get 0 (players twoPlayers) = Some alice0)
    by (vm_compute; reflexivity).
  split; [exact Hget |].
  destruct (move_position_in_arena always0 0%nat alice0 (JSnumber 5000)
              (JSnumber (-7)) None 1002%Z twoPlayers Hget)
    as (alice' & Hget' & Hx & Hy & _).
  exists alice'. split; [exact Hget' |].
  rewrite Hx, Hy. split; vm_compute; reflexivity.
Defined.

Lemma move_unregistered_dropped_witness :
  Map_get 7 (players twoPlayers) = None /\
  message always0 7 (move (JSnumber 3) (JSnumber 4) (Some true)) 1002 twoPlayers
  = twoPlayers.
Proof.
  assert (Hget : Map_get 7 (players twoPlayers) = None)
    by (vm_compute; reflexivity).
  split; [exact Hget |].
  exact (move_unregistered_dropped always0 7%nat (JSnumber 3) (JSnumber 4)
           (Some true) 1002%Z twoPlayers Hget).
Defined.

(** ** C8: two records with one id *)

Lemma gender_change_guarded_witness :
  gameRunning twoAlices = false /\
  map (fun e : Channel * Player => Player.gender e.2)
    (players (message always0 5 (player_gender "alice" (Some "f"%string))
                1002 twoAlices))
  = [Some "f"%string; Some "f"%string] /\
  message always0 5 (player_gender "alice" (Some "f"%string)) 1003
    (startTimer twoAlices) = startTimer twoAlices.
Proof.
  assert (Hidle : gameRunning twoAlices = false) by (vm_compute; reflexivity).
  split; [exact Hidle |]. split.
  - destruct (gender_change_guarded always0 5%nat "alice"
                (Some "f"%string) 1002%Z twoAlices) as [_ Hset].
    destruct (Hset Hidle) as (Hall & Hlen & _).
    apply list_eq. intros i. rewrite list_lookup_fmap.
    destruct i as [| [| i]].
    + erewrite Hall by (vm_compute; reflexivity). vm_compute. reflexivity.
    + erewrite Hall by (vm_compute; reflexivity). vm_compute. reflexivity.
    + rewrite lookup_ge_None_2; [reflexivity |].
      rewrite Hlen. vm_compute. lia.
  - destruct (gender_change_guarded always0 5%nat "alice"
                (Some "f"%string) 1003%Z (startTimer twoAlices)) as [Hnoop _].
    apply Hnoop. vm_compute. reflexivity.
Defined.

(** ** C4: two concrete pairs *)

Lemma isColliding_witness :
  isColliding alice0 (Player.set_y (Num 30) (Player.set_x (Num 100) bob)) = true /\
  isColliding alice0 (Player.set_y (Num 30) (Player.set_x (Num 100) alice)) = false.
Proof.
  split.
  - apply (isColliding_iff_intersect_and_differ alice0
             (Player.set_y (Num 30) (Player.set_x (Num 100) bob))).
    split; [| vm_compute; discriminate].
    exists 101%Q, 31%Q.
    split; (do 2 eexists; split; [reflexivity |]; split; [reflexivity |];
            vm_compute; repeat split; reflexivity).
  - apply (isColliding_iff_intersect_and_differ alice0
             (Player.set_y (Num 30) (Player.set_x (Num 100) alice))).
    vm_compute. reflexivity.
Defined.

(** * Further properties *)

(** ** Geometry *)

Lemma isOverlapping_true (a b : Player) :
  isOverlapping a b = true <-> rectangles_meet 64 64 a b.
Proof. unfold isOverlapping, PLAYER_SIZE. apply hit_test_true. Qed.

Lemma bool_eq_iff (b c : bool) : (b = true <-> c = true) -> b = c.
Proof. destruct b, c; intuition congruence. Qed.

Lemma rectangles_meet_sym (w h : Q) (a b : Player) :
  rectangles_meet w h a b -> rectangles_meet w h b a.
Proof.
  intros (ax & ay & bx & by' & ? & ? & ? & ? & ? & ? & ? & ?).
  exists bx, by', ax, ay. tauto.
Qed.

(** X1.  Both hit tests are symmetric; no record collides with itself;
    a record overlaps itself exactly when both its coordinates are
    numbers (a record with a NaN coordinate meets nothing); and two
    records that collide also overlap, the 24 x 40 hitbox lying inside
    the 64 x 64 square. *)
Theorem hit_tests_symmetric_and_nested (a b : Player) :
  isColliding a b = isColliding b a /\
  isOverlapping a b = isOverlapping b a /\
  isColliding a a = false /\
  (isOverlapping a a = true <->
     exists x y, Player.x a = Num x /\ Player.y a = Num y) /\
  (isColliding a b = true -> isOverlapping a b = true).
Proof.
  split; [| split; [| split; [| split]]].
  - apply bool_eq_iff. rewrite !isColliding_true.
    split; intros [H Hd]; (split; [by apply rectangles_meet_sym | congruence]).
  - apply bool_eq_iff. rewrite !isOverlapping_true.
    split; apply rectangles_meet_sym.
  - apply not_true_iff_false. rewrite isColliding_true. tauto.
  - rewrite isOverlapping_true. split.
    + intros (ax & ay & _ & _ & Ex & Ey & _). by exists ax, ay.
    + intros (x & y & Ex & Ey). exists x, y, x, y. repeat split; try done; lra.
  - rewrite isColliding_true, isOverlapping_true.
    intros ((ax & ay & bx & by' & ? & ? & ? & ? & ? & ? & ? & ?) & _).
    exists ax, ay, bx, by'. repeat split; try done; lra.
Qed.

(** ** The placement loop *)

Section PlacementLoop.

Variable Math_random : nat -> Q.

Lemma spawnLoop_S (zone : Zone) (player : Player) (placed : list Player)
    (n k : nat) :
  spawnLoop Math_random zone player placed (S n) k =
    if negb (overlapsPlaced player placed (candidate Math_random zone k).1)
    then (Some (candidate Math_random zone k).1,
          (candidate Math_random zone k).2)
    else spawnLoop Math_random zone player placed n
           (candidate Math_random zone k).2.
Proof.
  transitivity
    (let '(x, y, k') := candidate Math_random zone k in
     if negb (existsb (isOverlapping (Player.set_y (Num y) (Player.set_x (Num x) player)))
                placed)
     then (Some (x, y), k')
     else spawnLoop Math_random zone player placed n k'); [reflexivity |].
  unfold overlapsPlaced.
  destruct (candidate Math_random zone k) as [[x y] k']. reflexivity.
Qed.

Lemma candidate_next (zone : Zone) (k : nat) :
  (candidate Math_random zone k).2 = (k + draws zone)%nat.
Proof.
  destruct zone; unfold candidate, centerCandidate, edgeCandidate, draws.
  - cbn [snd]. lia.
  - destruct (Qfloor (Math_random k * 4)) as [| [p | [p | p |] |] | p];
      cbn [snd]; lia.
Qed.

Lemma nthCandidate_0 (zone : Zone) (k : nat) :
  nthCandidate Math_random zone k 0 = (candidate Math_random zone k).1.
Proof. unfold nthCandidate. by rewrite Nat.mul_0_r, Nat.add_0_r. Qed.

Lemma nthCandidate_S (zone : Zone) (k j : nat) :
  nthCandidate Math_random zone k (S j)
  = nthCandidate Math_random zone (k + draws zone) j.
Proof. unfold nthCandidate. do 2 f_equal. lia. Qed.

(** X2.  The placement loop returns the first of its candidates that
    overlaps no placed player, having drawn only the candidates up to
    it; it returns nothing exactly when each of the [n] candidates
    overlaps a placed player, and has then drawn all of them. *)
Theorem spawnLoop_first_free_candidate (zone : Zone) (player : Player)
    (placed : list Player) (n k : nat) :
  match spawnLoop Math_random zone player placed n k with
  | (Some pos, k') =>
      exists j, (j < n)%nat /\
        pos = nthCandidate Math_random zone k j /\
        k' = (k + draws zone * S j)%nat /\
        overlapsPlaced player placed pos = false /\
        forall j', (j' < j)%nat ->
          overlapsPlaced player placed (nthCandidate Math_random zone k j')
            = true
  | (None, k') =>
      k' = (k + draws zone * n)%nat /\
      forall j, (j < n)%nat ->
        overlapsPlaced player placed (nthCandidate Math_random zone k j) = true
  end.
Proof.
  revert k. induction n as [| n IH]; intros k.
  - change (spawnLoop Math_random zone player placed 0 k) with (@None (Q * Q), k).
    split; [lia | intros j Hj; lia].
  - rewrite spawnLoop_S.
    destruct (overlapsPlaced player placed (candidate Math_random zone k).1)
      eqn:Hov; cbn [negb].
    + specialize (IH (candidate Math_random zone k).2).
      rewrite candidate_next in *.
      destruct (spawnLoop Math_random zone player placed n (k + draws zone))
        as [[pos |] k'].
      * destruct IH as (j & Hj & Hpos & Hk & Hfree & Hbefore).
        exists (S j). rewrite nthCandidate_S.
        repeat split; [lia | done | lia | done |].
        intros [| j'] Hj'; [by rewrite nthCandidate_0 |].
        rewrite nthCandidate_S. apply Hbefore. lia.
      * destruct IH as (Hk & Hall). split; [lia |].
        intros [| j] Hj; [by rewrite nthCandidate_0 |].
        rewrite nthCandidate_S. apply Hall. lia.
    + exists 0%nat. rewrite nthCandidate_0, candidate_next.
      repeat split; [lia | lia | done |]. intros j' Hj'. lia.
Qed.

End PlacementLoop.

(** ** The sampling zones *)

Section Zones.

Variable Math_random : nat -> Q.
Hypothesis Math_random_unit : unit_random Math_random.

Lemma centerCandidate_in_zone (k : nat) :
  let pos := (centerCandidate Math_random k).1 in
  (500 <= pos.1 < 700 /\ 225 <= pos.2 < 375)%Q.
Proof.
  cbv zeta. unfold centerCandidate. cbn [fst snd].
  assert (Ex : (CENTER_ZONE_x == 500)%Q) by reflexivity.
  assert (Ey : (CENTER_ZONE_y == 225)%Q) by reflexivity.
  rewrite Ex, Ey. unfold CENTER_ZONE_width, CENTER_ZONE_height.
  pose proof (Math_random_unit k). pose proof (Math_random_unit (S k)).
  repeat split; lra.
Qed.

Lemma edgeCandidate_in_zone (k : nat) :
  let pos := (edgeCandidate Math_random k).1 in
  (80 <= pos.1 < 1056 /\ 0 <= pos.2 < 80 \/
   80 <= pos.1 < 1056 /\ 456 <= pos.2 < 536 \/
   0 <= pos.1 < 80 /\ 80 <= pos.2 < 456 \/
   1056 <= pos.1 < 1136 /\ 80 <= pos.2 < 456)%Q.
Proof.
  cbv zeta. unfold edgeCandidate.
  pose proof (Math_random_unit (S k)). pose proof (Math_random_unit (S (S k))).
  destruct (Qfloor (Math_random k * 4)) as [| [p | [p | p |] |] | p];
    cbn [fst snd];
    unfold EDGE_MARGIN, ARENA_WIDTH, ARENA_HEIGHT, PLAYER_SIZE;
    first [ left; repeat split; lra
          | right; left; repeat split; lra
          | right; right; left; repeat split; lra
          | right; right; right; repeat split; lra ].
Qed.

End Zones.

(** ** The registry as a map *)

Lemma Map_get_set_ne (ws ws' : Channel) (p : Player) (m : Registry) :
  ws' <> ws -> Map_get ws' (Map_set ws p m) = Map_get ws' m.
Proof.
  intros Hne. induction m as [| [k v] m IH]; simpl.
  - apply Nat.eqb_neq in Hne. by rewrite Nat.eqb_sym, Hne.
  - destruct (Nat.eqb k ws) eqn:E; simpl.
    + apply Nat.eqb_eq in E as ->.
      apply Nat.eqb_neq in Hne. by rewrite Nat.eqb_sym, Hne.
    + by rewrite IH.
Qed.

Lemma Map_get_None_keys (ws : Channel) (m : Registry) :
  Map_get ws m = None <-> ~ In ws (Map_keys m).
Proof.
  induction m as [| [k v] m IH]; simpl; [tauto |].
  destruct (Nat.eqb k ws) eqn:E.
  - apply Nat.eqb_eq in E. split; [done |].
    intros H. exfalso. apply H. by left.
  - apply Nat.eqb_neq in E. rewrite IH. unfold Map_keys. tauto.
Qed.

Lemma Map_delete_set_fresh (ws : Channel) (p : Player) (m : Registry) :
  Map_get ws m = None -> Map_delete ws (Map_set ws p m) = m.
Proof.
  induction m as [| [k v] m IH]; simpl.
  - by rewrite Nat.eqb_refl.
  - destruct (Nat.eqb k ws) eqn:E; [done |]. intros H. simpl.
    by rewrite E, IH.
Qed.

Lemma Map_set_keys_In (ws x : Channel) (p : Player) (m : Registry) :
  In x (Map_keys (Map_set ws p m)) <-> x = ws \/ In x (Map_keys m).
Proof.
  induction m as [| [k v] m IH]; simpl; [intuition |].
  destruct (Nat.eqb k ws) eqn:E; simpl.
  - apply Nat.eqb_eq in E. subst. unfold Map_keys. intuition congruence.
  - rewrite IH. unfold Map_keys. intuition congruence.
Qed.

Lemma Map_set_keys_NoDup (ws : Channel) (p : Player) (m : Registry) :
  List.NoDup (Map_keys m) -> List.NoDup (Map_keys (Map_set ws p m)).
Proof.
  induction m as [| [k v] m IH]; simpl; intros Hnd.
  - constructor; [tauto | constructor].
  - inversion Hnd as [| ? ? Hnin Hnd']; subst.
    destruct (Nat.eqb k ws) eqn:E; simpl.
    + apply Nat.eqb_eq in E. subst. by constructor.
    + apply Nat.eqb_neq in E. constructor; [| by apply IH].
      rewrite Map_set_keys_In. intros [-> | H]; [done | tauto].
Qed.

Lemma Map_delete_keys_In (ws x : Channel) (m : Registry) :
  In x (Map_keys (Map_delete ws m)) -> In x (Map_keys m).
Proof.
  induction m as [| [k v] m IH]; simpl; [done |].
  destruct (Nat.eqb k ws); simpl; tauto.
Qed.

Lemma Map_delete_keys_NoDup (ws : Channel) (m : Registry) :
  List.NoDup (Map_keys m) ->
  List.NoDup (Map_keys (Map_delete ws m)) /\
  ~ In ws (Map_keys (Map_delete ws m)).
Proof.
  induction m as [| [k v] m IH]; simpl; intros Hnd.
  - split; [constructor | tauto].
  - inversion Hnd as [| ? ? Hnin Hnd']; subst.
    destruct (Nat.eqb k ws) eqn:E; simpl.
    + apply Nat.eqb_eq in E. by subst.
    + apply Nat.eqb_neq in E. destruct (IH Hnd') as [Hnd'' Hout].
      split; [| tauto]. constructor; [| done].
      intros H. by apply Map_delete_keys_In in H.
Qed.

Lemma Map_get_delete_ne (ws ws' : Channel) (m : Registry) :
  ws' <> ws -> Map_get ws' (Map_delete ws m) = Map_get ws' m.
Proof.
  intros Hne. induction m as [| [k v] m IH]; simpl; [done |].
  destruct (Nat.eqb k ws) eqn:E; simpl.
  - apply Nat.eqb_eq in E. subst.
    apply Nat.eqb_neq in Hne. by rewrite Nat.eqb_sym, Hne.
  - by rewrite IH.
Qed.

Lemma Map_set_Forall (P : Channel * Player -> Prop) (ws : Channel)
    (p : Player) (m : Registry) :
  P (ws, p) -> Forall P m -> Forall P (Map_set ws p m).
Proof.
  intros Hp. induction 1 as [| [k v] m Hkv Hm IH]; simpl.
  - by constructor.
  - destruct (Nat.eqb k ws); by constructor.
Qed.

Lemma Map_delete_Forall (P : Channel * Player -> Prop) (ws : Channel)
    (m : Registry) :
  Forall P m -> Forall P (Map_delete ws m).
Proof.
  induction 1 as [| [k v] m Hkv Hm IH]; simpl; [done |].
  destruct (Nat.eqb k ws); [done | by constructor].
Qed.

(** ** join and close *)

Section JoinClose.

Variable Math_random : nat -> Q.

Lemma spawnLoop_Some_free (zone : Zone) (player : Player)
    (placed : list Player) (n k : nat) (pos : Q * Q) (k' : nat) :
  spawnLoop Math_random zone player placed n k = (Some pos, k') ->
  overlapsPlaced player placed pos = false /\
  exists k0, pos = (candidate Math_random zone k0).1.
Proof.
  revert k. induction n as [| n IH]; intros k.
  - change (spawnLoop Math_random zone player placed 0 k)
      with (@None (Q * Q), k). done.
  - rewrite spawnLoop_S.
    destruct (overlapsPlaced player placed (candidate Math_random zone k).1)
      eqn:Hov; cbn [negb].
    + apply IH.
    + intros [= <- <-]. split; [done | by exists k].
Qed.

Lemma joinHandler_result (ws : Channel) (player : Player) (now : Z)
    (s : Server) :
  let s' := joinHandler Math_random ws player now s in
  let m' := Map_set ws (joinedPlayer Math_random player s) (players s) in
  players s' = m' /\
  sent s' =
    (sent s ++ rosterBroadcast players_update m') ++
    [(ws, TimerUpdate (gameTimer s) (gameRunning s) (gamePaused s))] /\
  timerFields s' = timerFields s /\
  lastBroadcastTime s' = now /\
  broadcastPending s' = broadcastPending s /\
  broadcastTimeout s' = broadcastTimeout s /\
  console s' = console s /\
  randomCalls s' =
    (spawnLoop Math_random
       (if Player.isInfected player then Center else Edge) player
       (Map_values (players s)) MAX_SPAWN_ATTEMPTS (randomCalls s)).2.
Proof.
  cbv zeta. unfold joinHandler, joinedPlayer, joinPosition.
  destruct (Player.isInfected player);
    destruct (spawnLoop Math_random _ player (Map_values (players s))
                MAX_SPAWN_ATTEMPTS (randomCalls s)) as [[[x y] |] k];
    repeat split; reflexivity.
Qed.

(** X3.  A join stores the record under its connection with the id,
    infection flag, name, gender and [collidingWith] the client sent
    (only the position is the server's), leaves every other connection's
    record alone, sends the new roster to every connection, the joiner
    included, and then the timer state to the joiner alone; the timer
    and the pending throttle timeout are untouched. *)
Theorem join_registers (ws : Channel) (player : Player) (now : Z)
    (s : Server) :
  let s' := message Math_random ws (join player) now s in
  (exists player',
     Map_get ws (players s') = Some player' /\
     Player.id player' = Player.id player /\
     Player.isInfected player' = Player.isInfected player /\
     Player.name player' = Player.name player /\
     Player.gender player' = Player.gender player /\
     Player.collidingWith player' = Player.collidingWith player) /\
  (forall ws', ws' <> ws ->
     Map_get ws' (players s') = Map_get ws' (players s)) /\
  sent s' =
    sent s ++ rosterBroadcast players_update (players s') ++
    [(ws, TimerUpdate (gameTimer s) (gameRunning s) (gamePaused s))] /\
  In ws (Map_keys (players s')) /\
  timerFields s' = timerFields s /\
  lastBroadcastTime s' = now /\
  broadcastPending s' = broadcastPending s /\
  broadcastTimeout s' = broadcastTimeout s.
Proof.
  cbv zeta.
  change (message Math_random ws (join player) now s)
    with (joinHandler Math_random ws player now s).
  destruct (joinHandler_result ws player now s)
    as (Hps & Hsent & Ht & Hl & Hp & Hto & _ & _).
  rewrite Hps, Hsent, <- app_assoc.
  repeat split; try done.
  - exists (joinedPlayer Math_random player s). rewrite Map_get_set_eq. done.
  - intros ws' Hne. by apply Map_get_set_ne.
  - apply Map_set_keys_In. by left.
Qed.

(** X4.  When the placement of a join finds a position within its
    attempts, the joining record as stored overlaps no record that was
    registered before it. *)
Theorem join_placed_without_overlap (ws : Channel) (player : Player)
    (now : Z) (s : Server) (pos : Q * Q) :
  (spawnLoop Math_random
     (if Player.isInfected player then Center else Edge) player
     (Map_values (players s)) MAX_SPAWN_ATTEMPTS (randomCalls s)).1
    = Some pos ->
  let s' := message Math_random ws (join player) now s in
  exists player',
    Map_get ws (players s') = Some player' /\
    Player.x player' = Num pos.1 /\ Player.y player' = Num pos.2 /\
    forall i c q, players s !! i = Some (c, q) ->
      isOverlapping player' q = false.
Proof.
  intros Hfound. cbv zeta.
  change (message Math_random ws (join player) now s)
    with (joinHandler Math_random ws player now s).
  destruct (joinHandler_result ws player now s) as (Hps & _).
  rewrite Hps, Map_get_set_eq. exists (joinedPlayer Math_random player s).
  unfold joinedPlayer, joinPosition. rewrite Hfound. cbn [default].
  repeat split.
  destruct (spawnLoop Math_random
              (if Player.isInfected player then Center else Edge) player
              (Map_values (players s)) MAX_SPAWN_ATTEMPTS (randomCalls s))
    as [found k'] eqn:Hsp.
  cbn [fst] in Hfound. subst found.
  apply spawnLoop_Some_free in Hsp as [Hfree _].
  intros i c q Hlk. unfold overlapsPlaced in Hfree.
  apply not_true_iff_false. intros Hov.
  apply not_true_iff_false in Hfree. apply Hfree.
  apply existsb_exists. exists q. split; [| done].
  unfold Map_values. apply in_map_iff. exists (c, q). split; [done |].
  apply list_elem_of_In, list_elem_of_lookup. by exists i.
Qed.

(** X5.  Into an empty registry the first candidate is always accepted:
    the joiner is stored at it, after two draws for an infected player
    and three for a healthy one; with draws in [0, 1) that position is
    inside the centre rectangle, or on one of the four edge bands. *)
Theorem join_first_player (ws : Channel) (player : Player) (now : Z)
    (s : Server) :
  players s = [] ->
  unit_random Math_random ->
  let zone := if Player.isInfected player then Center else Edge in
  let pos := (candidate Math_random zone (randomCalls s)).1 in
  let s' := message Math_random ws (join player) now s in
  players s' = [(ws, Player.set_y (Num pos.2) (Player.set_x (Num pos.1) player))] /\
  randomCalls s' = (randomCalls s + draws zone)%nat /\
  match zone with
  | Center => (500 <= pos.1 < 700 /\ 225 <= pos.2 < 375)%Q
  | Edge =>
      (80 <= pos.1 < 1056 /\ 0 <= pos.2 < 80 \/
       80 <= pos.1 < 1056 /\ 456 <= pos.2 < 536 \/
       0 <= pos.1 < 80 /\ 80 <= pos.2 < 456 \/
       1056 <= pos.1 < 1136 /\ 80 <= pos.2 < 456)%Q
  end.
Proof.
  intros Hempty Hunit. cbv zeta.
  change (message Math_random ws (join player) now s)
    with (joinHandler Math_random ws player now s).
  destruct (joinHandler_result ws player now s)
    as (Hps & _ & _ & _ & _ & _ & _ & Hk).
  rewrite Hps, Hk. unfold joinedPlayer, joinPosition.
  rewrite Hempty. change MAX_SPAWN_ATTEMPTS with (S 99).
  rewrite spawnLoop_S. unfold overlapsPlaced.
  cbn [Map_values map existsb negb fst snd default Map_set].
  rewrite candidate_next.
  split; [done |]. split; [done |].
  destruct (Player.isInfected player).
  - by apply centerCandidate_in_zone.
  - by apply edgeCandidate_in_zone.
Qed.

(** X6.  A close removes the record of its connection and no other,
    leaves the remaining records as they are, and sends the new roster
    to the remaining connections only: nothing goes to the one that
    closed.  (The keys of the registry are distinct, as they are in
    every reachable state.) *)
Theorem close_removes (ws : Channel) (now : Z) (s : Server) :
  List.NoDup (Map_keys (players s)) ->
  let s' := close ws now s in
  Map_get ws (players s') = None /\
  (forall ws', ws' <> ws ->
     Map_get ws' (players s') = Map_get ws' (players s)) /\
  sent s' = sent s ++ rosterBroadcast players_update (players s') /\
  ~ In ws (map fst (rosterBroadcast players_update (players s'))) /\
  timerFields s' = timerFields s /\
  lastBroadcastTime s' = now.
Proof.
  intros Hnd. cbv zeta. unfold close.
  unfold broadcastPlayersImmediate, rosterBroadcast, timerFields.
  server_simpl.
  destruct (Map_delete_keys_NoDup ws (players s) Hnd) as [_ Hout].
  repeat split.
  - by apply Map_get_None_keys.
  - intros ws' Hne. by apply Map_get_delete_ne.
  - rewrite map_map. cbn [fst]. by rewrite map_id.
Qed.

(** X7.  A join on a connection that had no record, followed by the
    close of that connection, gives back the registry as it was. *)
Theorem join_then_close_restores_registry (ws : Channel) (player : Player)
    (now now' : Z) (s : Server) :
  Map_get ws (players s) = None ->
  players (close ws now' (message Math_random ws (join player) now s))
  = players s.
Proof.
  intros Hnone.
  change (message Math_random ws (join player) now s)
    with (joinHandler Math_random ws player now s).
  unfold close. server_simpl.
  destruct (joinHandler_result ws player now s) as (Hps & _).
  rewrite Hps. by apply Map_delete_set_fresh.
Qed.

End JoinClose.

(** ** What the handlers do to the registry *)

Lemma Map_keys_map_snd (g : Channel * Player -> Channel * Player)
    (m : Registry) :
  (forall e, (g e).1 = e.1) -> Map_keys (map g m) = Map_keys m.
Proof.
  intros Hg. unfold Map_keys. rewrite map_map. apply map_ext. exact Hg.
Qed.

Lemma marked_fst (ws : Channel) (m : Player) (e : Channel * Player) :
  (marked ws m e).1 = e.1.
Proof. unfold marked. by destruct (collides ws m e). Qed.

Lemma marked_position (ws : Channel) (m : Player) (e : Channel * Player) :
  Player.x (marked ws m e).2 = Player.x e.2 /\
  Player.y (marked ws m e).2 = Player.y e.2.
Proof. unfold marked. by destruct (collides ws m e). Qed.

Lemma moveHandler_players (ws : Channel) (dx dy : JSvalue)
    (isInfected : option bool) (now : Z) (s : Server) :
  players (moveHandler ws dx dy isInfected now s) =
    match Map_get ws (players s) with
    | None => players s
    | Some player =>
        let m := movedPlayer dx dy isInfected player in
        Map_set ws
          (Player.set_collidingWith (lastCollider ws m (players s) None) m)
          (map (marked ws m) (players s))
    end.
Proof.
  destruct (Map_get ws (players s)) as [player |] eqn:Hget.
  - by destruct (moveHandler_registered ws player dx dy isInfected now s Hget).
  - unfold moveHandler. by rewrite Hget.
Qed.

Lemma genderHandler_players (playerId : string) (gender : option string)
    (now : Z) (s : Server) :
  players (genderHandler playerId gender now s) =
    if gameRunning s then players s
    else map (fun e : Channel * Player =>
                if String.eqb (Player.id e.2) playerId
                then (e.1, Player.set_gender gender e.2) else e)
           (players s).
Proof. unfold genderHandler. by destruct (gameRunning s). Qed.

Lemma timerTick_players (s : Server) : players (timerTick s) = players s.
Proof.
  unfold timerTick. destruct (gamePaused s); [done |]. cbv zeta.
  match goal with |- context [if ?b then _ else _] => destruct b end;
    [| reflexivity].
  unfold stopTimer.
  match goal with |- context [if ?b then _ else _] => destruct b end;
    reflexivity.
Qed.

Section RegistryInvariants.

Variable Math_random : nat -> Q.

Lemma infectHandler_players (playerId : string) (now : Z) (s : Server) :
  players (infectHandler Math_random playerId now s) =
    players
      (resetAllPositions Math_random
         (set_players
            (map (fun e : Channel * Player =>
                    if String.eqb (Player.id e.2) playerId
                    then (e.1, Player.set_isInfected true e.2) else e)
               (players s)) s)).
Proof. reflexivity. Qed.

Lemma answerCorrectHandler_players (now : Z) (s : Server) :
  players (answerCorrectHandler Math_random now s) =
    players (resetAllPositions Math_random s).
Proof. reflexivity. Qed.

Lemma resetAllPositions_keys (s : Server) :
  Map_keys (players (resetAllPositions Math_random s)) = Map_keys (players s).
Proof.
  rewrite resetAllPositions_sweep.
  by destruct (sweep_frame Math_random (sweepOrder s) ([], s))
    as (_ & _ & _ & ->).
Qed.

Lemma step_keys_NoDup (s s' : Server) :
  step Math_random s s' ->
  List.NoDup (Map_keys (players s)) -> List.NoDup (Map_keys (players s')).
Proof.
  intros Hstep Hnd.
  destruct Hstep as [ws s | ws data now s | ws now s | s Hi
                    | due now s Hdue Hle]; try exact Hnd.
  - destruct data as [player | | | playerId gender | dx dy isInfected
                     | playerId | | playerId playerName isCorrect | type];
      cbn [message]; try exact Hnd.
    + destruct (joinHandler_result Math_random ws player now s) as (-> & _).
      by apply Map_set_keys_NoDup.
    + unfold startTimer. by destruct (timerInterval s).
    + unfold stopTimer. by destruct (timerInterval s).
    + rewrite genderHandler_players. destruct (gameRunning s); [done |].
      rewrite Map_keys_map_snd; [done |].
      intros e. by destruct (String.eqb (Player.id e.2) playerId).
    + rewrite moveHandler_players.
      destruct (Map_get ws (players s)) as [player |]; [| done].
      cbv zeta. apply Map_set_keys_NoDup.
      rewrite Map_keys_map_snd; [done | apply marked_fst].
    + rewrite infectHandler_players, resetAllPositions_keys. cbn [players set_players].
      rewrite Map_keys_map_snd; [done |].
      intros e. by destruct (String.eqb (Player.id e.2) playerId).
    + by rewrite answerCorrectHandler_players, resetAllPositions_keys.
  - unfold close. server_simpl.
    by apply Map_delete_keys_NoDup.
  - by rewrite timerTick_players.
Qed.

(** X8.  In every reachable state each connection has at most one
    record: the keys of the registry are pairwise distinct. *)
Theorem reachable_keys_distinct (s : Server) :
  reachable Math_random s -> List.NoDup (Map_keys (players s)).
Proof.
  induction 1 as [| s s' _ IH Hstep].
  - constructor.
  - by eapply step_keys_NoDup.
Qed.

End RegistryInvariants.

(** ** Every record stays inside the arena *)

Lemma Map_get_registry_all (P : Player -> Prop) (ws : Channel) (p : Player)
    (m : Registry) :
  registry_all P m -> Map_get ws m = Some p -> P p.
Proof.
  intros Hm Hget. apply Map_get_Some_lookup in Hget as [i Hi].
  unfold registry_all in Hm. rewrite List.Forall_forall in Hm.
  apply (Hm (ws, p)). apply list_elem_of_In, list_elem_of_lookup. by exists i.
Qed.

Lemma registry_all_map (P : Player -> Prop)
    (g : Channel * Player -> Channel * Player) (m : Registry) :
  (forall e, P e.2 -> P (g e).2) ->
  registry_all P m -> registry_all P (map g m).
Proof.
  intros Hg. unfold registry_all. rewrite !List.Forall_forall.
  intros Hm e' Hin. apply in_map_iff in Hin as (e & <- & Hin). auto.
Qed.

Lemma clampX_NaN_or_within (v : JSnum) :
  NaN_or_within 0 (ARENA_WIDTH - PLAYER_SIZE) (clampX v).
Proof. destruct v as [q |]; [apply clampX_range | exact I]. Qed.

Lemma clampY_NaN_or_within (v : JSnum) :
  NaN_or_within 0 (ARENA_HEIGHT - PLAYER_SIZE) (clampY v).
Proof. destruct v as [q |]; [apply clampY_range | exact I]. Qed.

Lemma movedPlayer_in_arena_or_NaN (dx dy : JSvalue)
    (isInfected : option bool) (player : Player) :
  in_arena_or_NaN (movedPlayer dx dy isInfected player).
Proof.
  assert (Ex : Player.x (movedPlayer dx dy isInfected player)
               = clampX (JSplus (Player.x player) dx))
    by (unfold movedPlayer; by destruct isInfected).
  assert (Ey : Player.y (movedPlayer dx dy isInfected player)
               = clampY (JSplus (Player.y player) dy))
    by (unfold movedPlayer; by destruct isInfected).
  unfold in_arena_or_NaN. rewrite Ex, Ey.
  split; [apply clampX_NaN_or_within | apply clampY_NaN_or_within].
Qed.

Lemma movedPlayer_in_arena (dx dy : JSvalue) (isInfected : option bool)
    (player : Player) :
  in_arena player -> ToNumber dx <> NaN -> ToNumber dy <> NaN ->
  in_arena (movedPlayer dx dy isInfected player).
Proof.
  intros [Hx Hy] Hdx Hdy.
  assert (Ex : Player.x (movedPlayer dx dy isInfected player)
               = clampX (JSplus (Player.x player) dx))
    by (unfold movedPlayer; by destruct isInfected).
  assert (Ey : Player.y (movedPlayer dx dy isInfected player)
               = clampY (JSplus (Player.y player) dy))
    by (unfold movedPlayer; by destruct isInfected).
  unfold in_arena. rewrite Ex, Ey. unfold JSplus.
  destruct (Player.x player) as [x |]; [| done].
  destruct (Player.y player) as [y |]; [| done].
  destruct (ToNumber dx) as [d |]; [| done].
  destruct (ToNumber dy) as [d' |]; [| done].
  split; [apply clampX_range | apply clampY_range].
Qed.

Section PositionInvariant.

Variable Math_random : nat -> Q.
Hypothesis Math_random_unit : unit_random Math_random.

Lemma candidate_in_arena (zone : Zone) (k : nat) (player : Player) :
  let pos := (candidate Math_random zone k).1 in
  in_arena (Player.set_y (Num pos.2) (Player.set_x (Num pos.1) player)).
Proof.
  cbv zeta. unfold in_arena, ARENA_WIDTH, ARENA_HEIGHT, PLAYER_SIZE.
  cbn [Player.x Player.y Player.set_x Player.set_y num_within].
  destruct zone; cbn [candidate].
  - pose proof (centerCandidate_in_zone Math_random Math_random_unit k) as H.
    cbv zeta in H. lra.
  - pose proof (edgeCandidate_in_zone Math_random Math_random_unit k) as H.
    cbv zeta in H. lra.
Qed.

Lemma joinedPlayer_in_arena (player : Player) (s : Server) :
  in_arena (joinedPlayer Math_random player s).
Proof.
  unfold joinedPlayer, joinPosition.
  destruct (spawnLoop Math_random
              (if Player.isInfected player then Center else Edge) player
              (Map_values (players s)) MAX_SPAWN_ATTEMPTS (randomCalls s))
    as [[pos |] k'] eqn:Hsp; cbn [fst default].
  - apply spawnLoop_Some_free in Hsp as [_ [k0 ->]].
    apply candidate_in_arena.
  - unfold in_arena.
    destruct (Player.isInfected player);
      cbn [fst snd Player.x Player.y Player.set_x Player.set_y num_within];
      repeat split; vm_compute; discriminate.
Qed.

(** A property of positions that holds of every position inside the
    arena. *)
Variable P : Player -> Prop.
Hypothesis P_position :
  forall p q, Player.x q = Player.x p -> Player.y q = Player.y p -> P p -> P q.
Hypothesis P_in_arena : forall p, in_arena p -> P p.

Lemma placePlayer_keeps (zone : Zone) (acc : list Player * Server) (i : nat) :
  registry_all P (players acc.2) ->
  registry_all P (players (placePlayer Math_random zone acc i).2).
Proof.
  destruct acc as [placed s]. unfold placePlayer. cbn [snd]. intros Hm.
  destruct (players s !! i) as [[ws p] |]; [| done].
  destruct (spawnLoop Math_random zone p placed MAX_SPAWN_ATTEMPTS
              (randomCalls s)) as [[[x y] |] k] eqn:Hsp; server_simpl;
    [| done].
  apply Forall_insert; [done |]. cbn [snd].
  apply spawnLoop_Some_free in Hsp as [_ [k0 Hpos]].
  pose proof (candidate_in_arena zone k0 p) as H. cbv zeta in H.
  rewrite <- Hpos in H. apply P_in_arena. exact H.
Qed.

Lemma resetAllPositions_keeps (s : Server) :
  registry_all P (players s) ->
  registry_all P (players (resetAllPositions Math_random s)).
Proof.
  intros Hm. rewrite resetAllPositions_sweep. unfold sweep.
  apply (fold_left_preserves
           (fun acc : list Player * Server =>
              registry_all P (players acc.2))); [done |].
  intros acc [z i]. apply placePlayer_keeps.
Qed.

(** A message keeps the property of every record when, if it is a
    move, the property survives the mover's position update. *)
Lemma message_keeps (ws : Channel) (data : Message) (now : Z) (s : Server) :
  match data with
  | move dx dy isInfected =>
      forall player, P player -> P (movedPlayer dx dy isInfected player)
  | _ => True
  end ->
  registry_all P (players s) ->
  registry_all P (players (message Math_random ws data now s)).
Proof.
  intros Hmove Hm.
  destruct data as [player | | | playerId gender | dx dy isInfected
                   | playerId | | playerId playerName isCorrect | type];
    cbn [message]; try exact Hm.
  - destruct (joinHandler_result Math_random ws player now s) as (-> & _).
    apply Map_set_Forall; [| done].
    apply P_in_arena, joinedPlayer_in_arena.
  - unfold startTimer. by destruct (timerInterval s).
  - unfold stopTimer. by destruct (timerInterval s).
  - rewrite genderHandler_players. destruct (gameRunning s); [done |].
    apply registry_all_map; [| done].
    intros e He. destruct (String.eqb (Player.id e.2) playerId); [| done].
    by apply (P_position e.2).
  - rewrite moveHandler_players.
    destruct (Map_get ws (players s)) as [player |] eqn:Hget; [| done].
    cbv zeta. apply Map_set_Forall.
    + cbn [snd].
      apply (P_position (movedPlayer dx dy isInfected player)); [done | done |].
      apply Hmove. by eapply Map_get_registry_all.
    + apply registry_all_map; [| done].
      intros e He.
      destruct (marked_position ws (movedPlayer dx dy isInfected player) e)
        as [Ex Ey].
      by apply (P_position e.2).
  - rewrite infectHandler_players. apply resetAllPositions_keeps.
    cbn [players set_players]. apply registry_all_map; [| done].
    intros e He. destruct (String.eqb (Player.id e.2) playerId); [| done].
    by apply (P_position e.2).
  - rewrite answerCorrectHandler_players.
    by apply resetAllPositions_keeps.
Qed.

End PositionInvariant.

Lemma in_arena_or_NaN_weakens (p : Player) : in_arena p -> in_arena_or_NaN p.
Proof.
  unfold in_arena, in_arena_or_NaN.
  by destruct (Player.x p), (Player.y p); intros [? ?].
Qed.

Section ArenaInvariant.

Variable Math_random : nat -> Q.
Hypothesis Math_random_unit : unit_random Math_random.

Lemma step_in_arena_or_NaN (s s' : Server) :
  step Math_random s s' ->
  registry_all in_arena_or_NaN (players s) ->
  registry_all in_arena_or_NaN (players s').
Proof.
  intros Hstep Hm.
  destruct Hstep as [ws s | ws data now s | ws now s | s Hi
                    | due now s Hdue Hle]; try exact Hm.
  - apply (message_keeps Math_random Math_random_unit in_arena_or_NaN);
      [| apply in_arena_or_NaN_weakens | | done].
    + unfold in_arena_or_NaN. by intros p q -> ->.
    + destruct data; try exact I.
      intros player _. apply movedPlayer_in_arena_or_NaN.
  - unfold close. server_simpl. by apply Map_delete_Forall.
  - by rewrite timerTick_players.
Qed.

(** X9.  With [Math.random()] in [0, 1), no join, move or reset sweep
    ever stores a number outside the arena: in every reachable state
    each stored coordinate is NaN or lies in its range,
    0 <= x <= ARENA_WIDTH - 64 and 0 <= y <= ARENA_HEIGHT - 64, whatever
    the clients sent.  And NaN enters only by a move whose dx or dy does
    not convert to a number: a step from a state whose records all
    stand inside the arena leads to such a state again, unless it is
    such a move. *)
Theorem reachable_in_arena (s : Server) :
  reachable Math_random s ->
  (forall i ws p, players s !! i = Some (ws, p) -> in_arena_or_NaN p) /\
  (forall s', step Math_random s s' ->
     registry_in_arena (players s) ->
     registry_in_arena (players s') \/
     exists ws dx dy isInfected now,
       s' = message Math_random ws (move dx dy isInfected) now s /\
       (ToNumber dx = NaN \/ ToNumber dy = NaN)).
Proof.
  intros Hreach. split.
  - assert (Hall : registry_all in_arena_or_NaN (players s)).
    { induction Hreach as [| s s' _ IH Hstep].
      - constructor.
      - by eapply step_in_arena_or_NaN. }
    intros i ws p Hlk.
    unfold registry_all in Hall. rewrite List.Forall_forall in Hall.
    apply (Hall (ws, p)).
    apply list_elem_of_In, list_elem_of_lookup. by exists i.
  - clear Hreach. intros s' Hstep Hm. unfold registry_in_arena in *.
    destruct Hstep as [ws s | ws data now s | ws now s | s Hi
                      | due now s Hdue Hle]; try (left; exact Hm).
    + assert (Hkeep :
        match data with
        | move dx dy isInfected =>
            forall player, in_arena player ->
              in_arena (movedPlayer dx dy isInfected player)
        | _ => True
        end ->
        registry_all in_arena (players (message Math_random ws data now s))).
      { intros Hmove.
        apply (message_keeps Math_random Math_random_unit in_arena);
          [| done | done | done].
        unfold in_arena. by intros p q -> ->. }
      destruct data as [player | | | playerId gender | dx dy isInfected
                       | playerId | | playerId playerName isCorrect | type];
        try (left; by apply Hkeep).
      destruct (ToNumber dx) as [d |] eqn:Edx;
        [| right; exists ws, dx, dy, isInfected, now; by split; [| left]].
      destruct (ToNumber dy) as [d' |] eqn:Edy;
        [| right; exists ws, dx, dy, isInfected, now; by split; [| right]].
      left. apply Hkeep. intros player Hp.
      apply movedPlayer_in_arena; [done | by rewrite Edx | by rewrite Edy].
    + left. unfold close. server_simpl. by apply Map_delete_Forall.
    + left. by rewrite timerTick_players.
Qed.

End ArenaInvariant.

(** ** The throttle flag and its timeout *)

Lemma broadcastPlayers_throttle (type : string) (now : Z) (s : Server) :
  throttle_wf s -> throttle_wf (broadcastPlayers type now s).
Proof.
  unfold throttle_wf, broadcastPlayers. intros Hwf.
  destruct (negb (String.eqb type players_update)); [exact Hwf |].
  destruct (BROADCAST_RATE <=? now - lastBroadcastTime s)%Z.
  - cbv zeta.
    change (broadcastTimeout
              (set_broadcastPending false
                 (broadcastPlayersImmediate type now s)))
      with (broadcastTimeout s).
    destruct (broadcastTimeout s) eqn:Ht; [reflexivity |].
    unfold broadcastPlayersImmediate. server_simpl. by rewrite Ht.
  - destruct (negb (broadcastPending s)); [reflexivity | exact Hwf].
Qed.

Section ThrottleInvariant.

Variable Math_random : nat -> Q.

Lemma resetAllPositions_throttle (s : Server) :
  broadcastPending (resetAllPositions Math_random s) = broadcastPending s /\
  broadcastTimeout (resetAllPositions Math_random s) = broadcastTimeout s.
Proof.
  rewrite resetAllPositions_sweep.
  destruct (sweep_frame Math_random (sweepOrder s) ([], s))
    as ((_ & _ & _ & _ & Hp & Ht) & _).
  by split.
Qed.

Lemma step_throttle_wf (s s' : Server) :
  step Math_random s s' -> throttle_wf s -> throttle_wf s'.
Proof.
  intros Hstep Hwf.
  destruct Hstep as [ws s | ws data now s | ws now s | s Hi
                    | due now s Hdue Hle]; try exact Hwf.
  - destruct data as [player | | | playerId gender | dx dy isInfected
                     | playerId | | playerId playerName isCorrect | type];
      cbn [message]; try exact Hwf.
    + destruct (joinHandler_result Math_random ws player now s)
        as (_ & _ & _ & _ & Hp & Ht & _).
      unfold throttle_wf. by rewrite Hp, Ht.
    + unfold startTimer. by destruct (timerInterval s).
    + unfold stopTimer. by destruct (timerInterval s).
    + unfold genderHandler. by destruct (gameRunning s).
    + unfold moveHandler.
      destruct (Map_get ws (players s)) as [player |]; [| done].
      destruct (collisionLoop_result ws
                  (movedPlayer dx dy isInfected player) s)
        as (_ & _ & _ & (_ & _ & _ & _ & Hp & Ht) & _).
      destruct (collisionLoop ws (movedPlayer dx dy isInfected player) s)
        as [p' s1].
      cbn [fst snd] in *. apply broadcastPlayers_throttle.
      unfold throttle_wf. server_simpl. by rewrite Hp, Ht.
    + unfold infectHandler, resumeTimer, broadcastTimer, throttle_wf.
      server_simpl.
      match goal with
      | |- context [resetAllPositions Math_random ?s0] =>
          destruct (resetAllPositions_throttle s0) as [Hp Ht]
      end.
      cbn in Hp, Ht |- *. by rewrite Hp, Ht.
    + unfold answerCorrectHandler, resumeTimer, broadcastTimer, throttle_wf.
      server_simpl.
      destruct (resetAllPositions_throttle s) as [Hp Ht].
      cbn. by rewrite Hp, Ht.
  - unfold timerTick, throttle_wf in *. destruct (gamePaused s); [done |].
    cbv zeta.
    match goal with |- context [if ?b then _ else _] => destruct b end;
      [| exact Hwf].
    unfold stopTimer.
    match goal with |- context [if ?b then _ else _] => destruct b end;
      exact Hwf.
  - reflexivity.
Qed.

(** X10.  In every reachable state the throttle flag [broadcastPending]
    is set exactly while a deferred broadcast is scheduled
    ([broadcastTimeout] is held): no timeout is left behind by a flag
    that was cleared, and no flag stays set without its timeout. *)
Theorem reachable_throttle_flag_matches_timeout (s : Server) :
  reachable Math_random s ->
  (broadcastPending s = true <-> exists due, broadcastTimeout s = Some due).
Proof.
  intros Hreach.
  assert (Hwf : throttle_wf s).
  { induction Hreach as [| s s' _ IH Hstep].
    - reflexivity.
    - by eapply step_throttle_wf. }
  unfold throttle_wf in Hwf. rewrite Hwf.
  destruct (broadcastTimeout s) as [due |].
  - split; [by exists due | done].
  - split; [done | by intros [due ?]].
Qed.

End ThrottleInvariant.

(** ** The reset sweep: what it guarantees *)

Section SweepGuarantees.

Variable Math_random : nat -> Q.

(** The list of placed records only grows. *)
Lemma sweep_placed_grows (work : list (Zone * nat))
    (acc : list Player * Server) (a : Player) :
  In a acc.1 -> In a (sweep Math_random work acc).1.
Proof.
  revert acc. induction work as [| [z j] work IH]; intros acc Ha; [done |].
  change (sweep Math_random ((z, j) :: work) acc)
    with (sweep Math_random work (placePlayer Math_random z acc j)).
  apply IH. destruct acc as [placed s]. unfold placePlayer. cbn [fst snd] in *.
  destruct (players s !! j) as [[ws p] |]; [| done].
  destruct (spawnLoop Math_random z p placed MAX_SPAWN_ATTEMPTS
              (randomCalls s)) as [[[x y] |] k]; cbn [fst]; [| done].
  apply in_or_app. by left.
Qed.

(** The record at position [i] when its turn comes is the one the sweep
    started with, and what its turn leaves there is what the sweep
    leaves there. *)
Lemma sweep_at_turn (s : Server) (pre post : list (Zone * nat)) (zone : Zone)
    (i : nat) (e : Channel * Player) :
  sweepOrder s = pre ++ (zone, i) :: post ->
  players s !! i = Some e ->
  let acc := sweep Math_random pre ([], s) in
  players acc.2 !! i = Some e /\
  players (resetAllPositions Math_random s) !! i
  = players (placePlayer Math_random zone acc i).2 !! i.
Proof.
  intros Hord Hlk. cbv zeta.
  pose proof (sweepOrder_indices_NoDup s) as Hnd.
  rewrite Hord, map_app in Hnd. simpl in Hnd.
  apply NoDup_app in Hnd as (_ & Hpre & Hnd).
  apply NoDup_cons in Hnd as (Hpost & _).
  assert (Hnpre : ~ In i (map snd pre)).
  { intros Hin. apply list_elem_of_In in Hin. apply (Hpre i Hin). left. }
  assert (Hnpost : ~ In i (map snd post)).
  { intros Hin. by apply list_elem_of_In in Hin. }
  split.
  - rewrite sweep_lookup_notin by done. exact Hlk.
  - rewrite resetAllPositions_sweep, Hord, sweep_app.
    change (sweep Math_random ((zone, i) :: post)
              (sweep Math_random pre ([], s)))
      with (sweep Math_random post
              (placePlayer Math_random zone (sweep Math_random pre ([], s)) i)).
    by rewrite sweep_lookup_notin.
Qed.

(** X11.  Two records that one reset sweep both places stand apart as
    the sweep leaves them: when the placement loop finds a position for
    the record at registry position [i] at its turn, and later in the
    same sweep one for the record at position [j], the registry the
    sweep leaves holds both at the positions found, and the two do not
    overlap (64 x 64 squares), hence do not collide, whichever zone each
    was placed in. *)
Theorem reset_sweep_placed_apart (s : Server)
    (pre mid post : list (Zone * nat)) (zone zone' : Zone) (i j : nat)
    (ws ws' : Channel) (p q : Player) (x y x' y' : Q) (k k' : nat) :
  sweepOrder s = pre ++ (zone, i) :: mid ++ (zone', j) :: post ->
  players s !! i = Some (ws, p) ->
  players s !! j = Some (ws', q) ->
  let acc := sweep Math_random pre ([], s) in
  let acc' := sweep Math_random (pre ++ (zone, i) :: mid) ([], s) in
  spawnLoop Math_random zone p acc.1 MAX_SPAWN_ATTEMPTS (randomCalls acc.2)
    = (Some (x, y), k) ->
  spawnLoop Math_random zone' q acc'.1 MAX_SPAWN_ATTEMPTS (randomCalls acc'.2)
    = (Some (x', y'), k') ->
  let s' := resetAllPositions Math_random s in
  let p' :=
    Player.set_collidingWith None
      (Player.set_y (Num y) (Player.set_x (Num x) p)) in
  let q' :=
    Player.set_collidingWith None
      (Player.set_y (Num y') (Player.set_x (Num x') q)) in
  players s' !! i = Some (ws, p') /\
  players s' !! j = Some (ws', q') /\
  isOverlapping q' p' = false /\ isOverlapping p' q' = false /\
  isColliding q' p' = false /\ isColliding p' q' = false.
Proof.
  intros Hord Hi Hj acc acc' Hsp Hsp' s' p' q'.
  destruct (sweep_at_turn s pre (mid ++ (zone', j) :: post) zone i (ws, p)
              Hord Hi) as [Hcur Hfin].
  assert (Hord' : sweepOrder s
                  = (pre ++ (zone, i) :: mid) ++ (zone', j) :: post).
  { rewrite Hord, <- app_assoc. reflexivity. }
  destruct (sweep_at_turn s (pre ++ (zone, i) :: mid) post zone' j (ws', q)
              Hord' Hj) as [Hcur' Hfin'].
  fold acc in Hcur, Hfin. fold acc' in Hcur', Hfin'. fold s' in Hfin, Hfin'.
  assert (Hp' : placePlayer Math_random zone acc i
                = (acc.1 ++ [p'],
                   set_players (<[i := (ws, p')]> (players acc.2))
                     (set_randomCalls k acc.2))).
  { destruct acc as [placed s1]. cbn [fst snd] in *.
    exact (placePlayer_placed Math_random _ _ _ _ _ _ _ _ _ Hcur Hsp). }
  assert (Hq' : placePlayer Math_random zone' acc' j
                = (acc'.1 ++ [q'],
                   set_players (<[j := (ws', q')]> (players acc'.2))
                     (set_randomCalls k' acc'.2))).
  { destruct acc' as [placed s1]. cbn [fst snd] in *.
    exact (placePlayer_placed Math_random _ _ _ _ _ _ _ _ _ Hcur' Hsp'). }
  assert (Hin : In p' acc'.1).
  { subst acc'. rewrite sweep_app.
    change (sweep Math_random ((zone, i) :: mid)
              (sweep Math_random pre ([], s)))
      with (sweep Math_random mid (placePlayer Math_random zone acc i)).
    apply sweep_placed_grows. rewrite Hp'. cbn [fst].
    apply in_or_app. right. by left. }
  assert (Hov : isOverlapping q' p' = false).
  { apply spawnLoop_Some_free in Hsp' as [Hfree _].
    unfold overlapsPlaced in Hfree. cbn [fst snd] in Hfree.
    apply not_true_iff_false. intros Hov.
    apply not_true_iff_false in Hfree. apply Hfree.
    apply existsb_exists. exists p'. split; [exact Hin | exact Hov]. }
  assert (Hov' : isOverlapping p' q' = false).
  { apply not_true_iff_false. intros H.
    apply not_true_iff_false in Hov. apply Hov.
    apply isOverlapping_true, rectangles_meet_sym, isOverlapping_true, H. }
  assert (Hnest : forall a b, isOverlapping a b = false ->
                    isColliding a b = false).
  { intros a b Hab. apply not_true_iff_false. intros Hc.
    apply isColliding_true in Hc
      as ((ax & ay & bx & by' & ? & ? & ? & ? & ? & ? & ? & ?) & _).
    apply not_true_iff_false in Hab. apply Hab.
    apply isOverlapping_true. exists ax, ay, bx, by'.
    repeat split; try done; lra. }
  split; [| split; [| split; [| split; [| split]]]]; try done;
    try by apply Hnest.
  - rewrite Hfin, Hp'. server_simpl.
    apply list_lookup_insert_eq. by eapply lookup_lt_Some.
  - rewrite Hfin', Hq'. server_simpl.
    apply list_lookup_insert_eq. by eapply lookup_lt_Some.
Qed.

Lemma broadcastPlayers_reset (now : Z) (s : Server) :
  broadcastPlayers players_reset now s
  = broadcastPlayersImmediate players_reset now s.
Proof. reflexivity. Qed.

Lemma placePlayer_identity (zone : Zone) (acc : list Player * Server)
    (j i : nat) (ws : Channel) (p : Player) :
  players acc.2 !! i = Some (ws, p) ->
  exists p',
    players (placePlayer Math_random zone acc j).2 !! i = Some (ws, p') /\
    same_identity p p'.
Proof.
  intros Hlk. destruct (decide (j = i)) as [-> | Hne].
  - destruct acc as [placed s]. unfold placePlayer. cbn [snd] in *.
    rewrite Hlk.
    destruct (spawnLoop Math_random zone p placed MAX_SPAWN_ATTEMPTS
                (randomCalls s)) as [[[x y] |] k]; server_simpl.
    + eexists. split.
      * apply list_lookup_insert_eq. by eapply lookup_lt_Some.
      * by repeat split.
    + exists p. split; [done | by repeat split].
  - exists p. rewrite placePlayer_lookup_ne by done.
    split; [done | by repeat split].
Qed.

Lemma resetAllPositions_identity (s : Server) (i : nat) (ws : Channel)
    (p : Player) :
  players s !! i = Some (ws, p) ->
  exists p',
    players (resetAllPositions Math_random s) !! i = Some (ws, p') /\
    same_identity p p'.
Proof.
  rewrite resetAllPositions_sweep. unfold sweep. revert i ws p.
  apply (fold_left_preserves
           (fun acc : list Player * Server =>
              forall i ws p, players s !! i = Some (ws, p) ->
                exists p', players acc.2 !! i = Some (ws, p') /\
                           same_identity p p')).
  - intros i ws p Hlk. exists p. split; [done | by repeat split].
  - intros acc [z j] IH i ws p Hlk.
    destruct (IH i ws p Hlk) as (p1 & Hlk1 & (H1 & H2 & H3 & H4)).
    destruct (placePlayer_identity z acc j i ws p1 Hlk1)
      as (p2 & Hlk2 & (G1 & G2 & G3 & G4)).
    exists p2. split; [done |]. repeat split; congruence.
Qed.

Lemma resetAllPositions_frame (s : Server) :
  let s' := resetAllPositions Math_random s in
  sent s' = sent s /\ timerFields s' = timerFields s /\
  lastBroadcastTime s' = lastBroadcastTime s /\
  broadcastPending s' = broadcastPending s /\
  broadcastTimeout s' = broadcastTimeout s /\
  Map_keys (players s') = Map_keys (players s).
Proof.
  cbv zeta. rewrite resetAllPositions_sweep.
  destruct (sweep_frame Math_random (sweepOrder s) ([], s))
    as ((Ht & Hr & Hi & Hl & Hp & Hto) & Hpa & Hs & Hk).
  cbn [fst snd] in *. unfold timerFields.
  repeat split; congruence.
Qed.

(** X12.  A reset sweep writes positions and [collidingWith] only: each
    connection keeps its place in the registry and its record keeps its
    id, infection flag, name and gender; the sweep sends nothing and
    touches neither the timer nor the throttle. *)
Theorem reset_sweep_keeps_identities (s : Server) :
  let s' := resetAllPositions Math_random s in
  (forall i ws p, players s !! i = Some (ws, p) ->
     exists p', players s' !! i = Some (ws, p') /\
       Player.id p' = Player.id p /\
       Player.isInfected p' = Player.isInfected p /\
       Player.name p' = Player.name p /\
       Player.gender p' = Player.gender p) /\
  Map_keys (players s') = Map_keys (players s) /\
  sent s' = sent s /\ timerFields s' = timerFields s /\
  lastBroadcastTime s' = lastBroadcastTime s /\
  broadcastPending s' = broadcastPending s /\
  broadcastTimeout s' = broadcastTimeout s.
Proof.
  cbv zeta.
  destruct (resetAllPositions_frame s) as (Hs & Ht & Hl & Hp & Hto & Hk).
  split; [| by repeat split].
  intros i ws p Hlk.
  destruct (resetAllPositions_identity s i ws p Hlk) as (p' & Hlk' & Hid).
  exists p'. split; [done | exact Hid].
Qed.

(** X13.  [player:infect] sets the infection flag of every record whose
    id is the given one and clears nobody's; ids, names and genders are
    kept.  It then sends the roster as [players:reset] to every
    connection at once, whatever the throttle says and without touching
    a pending deferred broadcast, and last a timer update with paused
    cleared (counter and running as they were). *)
Theorem infect_marks_and_resumes (ws : Channel) (playerId : string)
    (now : Z) (s : Server) :
  let s' := message Math_random ws (player_infect playerId) now s in
  (forall i c p, players s !! i = Some (c, p) ->
     exists p', players s' !! i = Some (c, p') /\
       Player.id p' = Player.id p /\
       Player.isInfected p' =
         Player.isInfected p || String.eqb (Player.id p) playerId /\
       Player.name p' = Player.name p /\
       Player.gender p' = Player.gender p) /\
  sent s' =
    sent s ++ rosterBroadcast players_reset (players s') ++
    timerBroadcast (gameTimer s) (gameRunning s) false (players s') /\
  timerFields s' = (gameTimer s, gameRunning s, false, timerInterval s) /\
  lastBroadcastTime s' = now /\
  broadcastPending s' = broadcastPending s /\
  broadcastTimeout s' = broadcastTimeout s.
Proof.
  cbv zeta.
  change (message Math_random ws (player_infect playerId) now s)
    with (infectHandler Math_random playerId now s).
  split; [| split; [| split; [apply infectHandler_timer |]]].
  - intros i c p Hlk. rewrite infectHandler_players.
    set (s1 := set_players _ s).
    assert (Hlk1 : players s1 !! i =
              Some (c, if String.eqb (Player.id p) playerId
                       then Player.set_isInfected true p else p)).
    { subst s1. cbn [players set_players].
      rewrite list_lookup_fmap, Hlk. cbn.
      by destruct (String.eqb (Player.id p) playerId). }
    destruct (resetAllPositions_identity s1 i c _ Hlk1)
      as (p' & Hlk' & (H1 & H2 & H3 & H4)).
    exists p'. split; [done |]. rewrite H1, H2, H3, H4.
    destruct (String.eqb (Player.id p) playerId);
      cbn; rewrite ?orb_true_r, ?orb_false_r; done.
  - unfold infectHandler, resumeTimer, broadcastTimer.
    rewrite broadcastPlayers_reset.
    unfold broadcastPlayersImmediate, rosterBroadcast, timerBroadcast.
    set (s1 := set_players _ s).
    destruct (resetAllPositions_frame s1) as (Hs & Ht & _).
    unfold timerFields in Ht. injection Ht as Ht Hr _ _.
    server_simpl. rewrite Hs, Ht, Hr, <- app_assoc. done.
  - unfold infectHandler, resumeTimer, broadcastTimer.
    set (s1 := set_players _ s).
    destruct (resetAllPositions_frame s1) as (_ & _ & _ & Hp & Hto & _).
    rewrite broadcastPlayers_reset.
    split; [reflexivity | split; [exact Hp | exact Hto]].
Qed.

End SweepGuarantees.

(** ** The round timer: rounds *)

Lemma timerTick_paused_iter (n : nat) (s : Server) :
  gamePaused s = true -> Nat.iter n timerTick s = s.
Proof.
  intros Hp. induction n as [| n IH]; [done |].
  rewrite Nat.iter_succ, IH. unfold timerTick. by rewrite Hp.
Qed.

Lemma timerTick_countdown (n : nat) (s : Server) :
  gamePaused s = false -> (Z.of_nat n < gameTimer s)%Z ->
  timerFields (Nat.iter n timerTick s)
  = ((gameTimer s - Z.of_nat n)%Z, gameRunning s, false, timerInterval s).
Proof.
  intros Hp. induction n as [| n IH]; intros Hlt.
  - cbn. unfold timerFields. rewrite Hp. do 3 f_equal. lia.
  - rewrite Nat.iter_succ, timerTick_timer.
    specialize (IH ltac:(lia)). unfold timerFields in IH.
    injection IH as Ht Hr Hpa Hi.
    rewrite Hpa, Ht, Hr, Hi.
    destruct (gameTimer s - Z.of_nat n - 1 <=? 0)%Z eqn:Hle.
    + apply Z.leb_le in Hle. lia.
    + do 3 f_equal. lia.
Qed.

(** X14.  A round that is not paused counts down one per tick and ends
    on the tick that takes the counter to 0: after [n] ticks with [n]
    below the counter the timer shows counter - n, still running; after
    as many ticks as the counter it is idle again, with the counter
    back at 20 and the interval cleared. *)
Theorem round_ends_after_counter_ticks (s : Server) (n : nat) :
  gamePaused s = false -> (1 <= gameTimer s)%Z ->
  ((Z.of_nat n < gameTimer s)%Z ->
     timerFields (Nat.iter n timerTick s)
     = ((gameTimer s - Z.of_nat n)%Z, gameRunning s, false, timerInterval s)) /\
  (Z.of_nat n = gameTimer s ->
     timerFields (Nat.iter n timerTick s) = (20%Z, false, false, false)).
Proof.
  intros Hp Hpos. split; [by apply timerTick_countdown |].
  intros Hn. destruct n as [| n]; [simpl in Hn; lia |].
  rewrite Nat.iter_succ, timerTick_timer.
  pose proof (timerTick_countdown n s Hp ltac:(lia)) as H.
  unfold timerFields in H. injection H as Ht Hr Hpa Hi.
  rewrite Hpa, Ht.
  destruct (gameTimer s - Z.of_nat n - 1 <=? 0)%Z eqn:Hle; [done |].
  apply Z.leb_gt in Hle. lia.
Qed.

(** X15.  Time spent paused is not counted: pause, any number of ticks,
    resume leaves the counter and the running flag as they were before
    the pause, with paused cleared; the ticks in between change nothing
    and send nothing. *)
Theorem paused_ticks_do_not_count (s : Server) (n : nat) :
  Nat.iter n timerTick (pauseTimer s) = pauseTimer s /\
  timerFields (resumeTimer (Nat.iter n timerTick (pauseTimer s)))
  = (gameTimer s, gameRunning s, false, timerInterval s).
Proof.
  assert (H : Nat.iter n timerTick (pauseTimer s) = pauseTimer s)
    by (by apply timerTick_paused_iter).
  split; [exact H |]. rewrite H. reflexivity.
Qed.

(** X16.  [game:start] is idempotent: a start leaves the interval set,
    so a second start right after it changes nothing and sends nothing.
    A start after a stop always opens a fresh round: counter 20,
    running, not paused. *)
Theorem start_idempotent_and_fresh_after_stop (s : Server) :
  startTimer (startTimer s) = startTimer s /\
  timerInterval (startTimer s) = true /\
  timerFields (startTimer (stopTimer s)) = (20%Z, true, false, true).
Proof.
  assert (Hi : timerInterval (startTimer s) = true).
  { unfold startTimer. destruct (timerInterval s) eqn:E; [exact E | done]. }
  split; [| split; [exact Hi |]].
  - unfold startTimer at 1. by rewrite Hi.
  - rewrite startTimer_timer.
    assert (Hint : timerInterval (stopTimer s) = false)
      by exact (f_equal snd (stopTimer_timer s)).
    assert (Ht : gameTimer (stopTimer s) = 20%Z)
      by exact (f_equal (fun t : Z * bool * bool * bool => t.1.1.1)
                  (stopTimer_timer s)).
    by rewrite Hint, Ht.
Qed.

(** ** Moves: what they keep, and when they are exact *)

Lemma Map_set_as_insert (ws : Channel) (p q : Player) (m : Registry) :
  Map_get ws m = Some q ->
  exists i, m !! i = Some (ws, q) /\ Map_set ws p m = <[i := (ws, p)]> m.
Proof.
  induction m as [| [k v] m IH]; simpl; [done |].
  destruct (Nat.eqb k ws) eqn:E.
  - intros [= ->]. apply Nat.eqb_eq in E as ->. by exists 0%nat.
  - intros H. destruct (IH H) as (i & Hi & Hset).
    exists (S i). split; [done |]. simpl. by rewrite Hset.
Qed.

Lemma Map_get_map (g : Channel * Player -> Channel * Player) (ws : Channel)
    (q : Player) (m : Registry) :
  (forall e, (g e).1 = e.1) ->
  Map_get ws m = Some q -> Map_get ws (map g m) = Some (g (ws, q)).2.
Proof.
  intros Hg. induction m as [| [k v] m IH]; [done |].
  cbn [map]. pose proof (Hg (k, v)) as Hk.
  destruct (g (k, v)) as [k' v'] eqn:Hgkv. cbn [fst] in Hk. subst k'.
  cbn [Map_get]. destruct (Nat.eqb k ws) eqn:E; [| exact IH].
  intros [= ->]. apply Nat.eqb_eq in E as ->. by rewrite Hgkv.
Qed.

Lemma clamp_inside (v hi : Q) :
  (0 <= v <= hi)%Q -> (Qmax 0 (Qmin v hi) == v)%Q.
Proof.
  intros [H0 Hhi]. rewrite (Q.min_l v hi) by done. by apply Q.max_r.
Qed.

Lemma clamp_above (v hi : Q) :
  (0 <= hi)%Q -> (hi <= v)%Q -> (Qmax 0 (Qmin v hi) == hi)%Q.
Proof.
  intros H0 Hhi. rewrite (Q.min_r v hi) by done. by apply Q.max_r.
Qed.

Lemma clamp_below (v hi : Q) :
  (0 <= hi)%Q -> (v <= 0)%Q -> (Qmax 0 (Qmin v hi) == 0)%Q.
Proof.
  intros H0 Hv. rewrite (Q.min_l v hi) by lra. by apply Q.max_l.
Qed.

Section MoveFrame.

Variable Math_random : nat -> Q.

(** X17.  A move never adds, removes or reorders connections, and never
    changes an id, a name or a gender; of the records under other
    connections it leaves position and infection flag alone as well (it
    can only write their [collidingWith]). *)
Theorem move_keeps_registry_shape (ws : Channel) (dx dy : JSvalue)
    (isInfected : option bool) (now : Z) (s : Server) :
  let s' := message Math_random ws (move dx dy isInfected) now s in
  Map_keys (players s') = Map_keys (players s) /\
  forall i c p, players s !! i = Some (c, p) ->
    exists p', players s' !! i = Some (c, p') /\
      Player.id p' = Player.id p /\ Player.name p' = Player.name p /\
      Player.gender p' = Player.gender p /\
      (c <> ws -> same_but_collidingWith p p').
Proof.
  cbv zeta.
  change (message Math_random ws (move dx dy isInfected) now s)
    with (moveHandler ws dx dy isInfected now s).
  rewrite moveHandler_players.
  destruct (Map_get ws (players s)) as [player |] eqn:Hget.
  2: { split; [done |]. intros i c p Hlk. exists p.
       repeat split; try done. intros _. apply same_but_collidingWith_refl. }
  cbv zeta. set (m := movedPlayer dx dy isInfected player).
  set (mover := Player.set_collidingWith _ m).
  assert (Hget' : Map_get ws (map (marked ws m) (players s))
                  = Some (marked ws m (ws, player)).2)
    by (apply Map_get_map; [apply marked_fst | done]).
  destruct (Map_set_as_insert ws mover _ _ Hget') as (i0 & Hi0 & ->).
  split.
  - unfold Map_keys. rewrite list_fmap_insert. cbn [fst].
    rewrite list_insert_id.
    + apply (Map_keys_map_snd (marked ws m)), marked_fst.
    + by rewrite list_lookup_fmap, Hi0.
  - intros i c p Hlk.
    assert (Hmk : map (marked ws m) (players s) !! i
                  = Some (marked ws m (c, p)))
      by (by rewrite list_lookup_fmap, Hlk).
    destruct (decide (i0 = i)) as [-> | Hne].
    + rewrite Hi0 in Hmk. injection Hmk as Hmk.
      assert (Hc : c = ws).
      { pose proof (marked_fst ws m (c, p)) as Hf. rewrite <- Hmk in Hf.
        by symmetry. }
      subst c.
      assert (Hp : p = player).
      { assert (Hu : collides ws m (ws, p) = false)
          by (unfold collides; cbn [fst]; by rewrite Nat.eqb_refl).
        assert (Hv : collides ws m (ws, player) = false)
          by (unfold collides; cbn [fst]; by rewrite Nat.eqb_refl).
        unfold marked in Hmk. rewrite Hu, Hv in Hmk. by injection Hmk. }
      subst p. exists mover.
      rewrite list_lookup_insert_eq by (by eapply lookup_lt_Some).
      split; [done |]. subst mover m. unfold movedPlayer.
      destruct isInfected; repeat split; done.
    + rewrite list_lookup_insert_ne by done. rewrite Hmk.
      unfold marked. destruct (collides ws m (c, p)); cbn [fst snd].
      * eexists. split; [reflexivity |].
        repeat split; intros;
          apply same_but_collidingWith_set, same_but_collidingWith_refl.
      * exists p. repeat split; intros; apply same_but_collidingWith_refl.
Qed.

(** X18.  Inside the arena a move is an exact translation: for a
    stored coordinate x and a payload field that converts to the number
    dx, when the target x + dx is within [0, ARENA_WIDTH - 64] the
    stored x is x + dx (and likewise for y); a target beyond an edge is
    stored as that edge. *)
Theorem move_translates_or_saturates (ws : Channel) (player : Player)
    (dx dy : JSvalue) (isInfected : option bool) (now : Z) (s : Server) :
  Map_get ws (players s) = Some player ->
  exists player',
    Map_get ws (players (message Math_random ws (move dx dy isInfected) now s))
      = Some player' /\
    (forall x d, Player.x player = Num x -> ToNumber dx = Num d ->
       ((0 <= x + d <= ARENA_WIDTH - 64)%Q ->
          is_num (Player.x player') (x + d)) /\
       ((ARENA_WIDTH - 64 <= x + d)%Q ->
          is_num (Player.x player') (ARENA_WIDTH - 64)) /\
       ((x + d <= 0)%Q -> is_num (Player.x player') 0)) /\
    (forall y d, Player.y player = Num y -> ToNumber dy = Num d ->
       ((0 <= y + d <= ARENA_HEIGHT - 64)%Q ->
          is_num (Player.y player') (y + d)) /\
       ((ARENA_HEIGHT - 64 <= y + d)%Q ->
          is_num (Player.y player') (ARENA_HEIGHT - 64)) /\
       ((y + d <= 0)%Q -> is_num (Player.y player') 0)).
Proof.
  intros Hget.
  change (message Math_random ws (move dx dy isInfected) now s)
    with (moveHandler ws dx dy isInfected now s).
  rewrite moveHandler_players, Hget. cbv zeta. rewrite Map_get_set_eq.
  eexists. split; [reflexivity |].
  assert (Hx : forall c, Player.x (Player.set_collidingWith c
                            (movedPlayer dx dy isInfected player))
                         = clampX (JSplus (Player.x player) dx))
    by (intros c; unfold movedPlayer; by destruct isInfected).
  assert (Hy : forall c, Player.y (Player.set_collidingWith c
                            (movedPlayer dx dy isInfected player))
                         = clampY (JSplus (Player.y player) dy))
    by (intros c; unfold movedPlayer; by destruct isInfected).
  rewrite Hx, Hy. split.
  - intros x d Ex Ed. rewrite (JSplus_Num _ _ x d Ex Ed).
    unfold clampX. cbn [Math_max Math_min is_num]. repeat split; intros H.
    + by apply clamp_inside.
    + apply clamp_above; [vm_compute; discriminate | done].
    + apply clamp_below; [vm_compute; discriminate | done].
  - intros y d Ey Ed. rewrite (JSplus_Num _ _ y d Ey Ed).
    unfold clampY. cbn [Math_max Math_min is_num]. repeat split; intros H.
    + by apply clamp_inside.
    + apply clamp_above; [vm_compute; discriminate | done].
    + apply clamp_below; [vm_compute; discriminate | done].
Qed.

End MoveFrame.

(** ** The throttler loses no trigger *)

(** X19.  No throttled trigger is lost: after [broadcastPlayers()] the
    roster has either just been sent to every connection (and nothing
    is left pending), or nothing was sent and a deferred broadcast is
    pending with its timeout held. *)
Theorem trigger_emits_or_leaves_pending (now : Z) (s : Server) :
  throttle_wf s ->
  let s' := trigger now s in
  players s' = players s /\
  (sent s' = sent s ++ rosterBroadcast players_update (players s) /\
   lastBroadcastTime s' = now /\
   broadcastPending s' = false /\ broadcastTimeout s' = None
   \/
   sent s' = sent s /\ lastBroadcastTime s' = lastBroadcastTime s /\
   broadcastPending s' = true /\
   exists due, broadcastTimeout s' = Some due).
Proof.
  intros Hwf. cbv zeta. split; [apply broadcastPlayers_players |].
  destruct (Z_le_gt_dec BROADCAST_RATE (now - lastBroadcastTime s))
    as [Hge | Hlt].
  - left. rewrite trigger_emits_at_once by done. done.
  - right. destruct (broadcastPending s) eqn:Hp.
    + rewrite trigger_while_pending by (done || lia).
      repeat split; [done |].
      unfold throttle_wf in Hwf. rewrite Hp in Hwf.
      destruct (broadcastTimeout s) as [due |]; [by exists due | done].
    + rewrite trigger_schedules by (done || lia).
      repeat split. by eexists.
Qed.

(** * Witnesses of the further properties *)

Lemma always0_unit : unit_random always0.
Proof. intros n. unfold always0. lra. Qed.

Lemma join_placed_without_overlap_witness :
  exists bob',
    Map_get 1 (players twoPlayers) = Some bob' /\
    isOverlapping bob' alice0 = false.
Proof.
  destruct (join_placed_without_overlap always0 1%nat bob 1001%Z
              (message always0 0 (join alice) 1000 initial)
              ((1200 / 2 - 100 + 0 * 200)%Q, (600 / 2 - 75 + 0 * 150)%Q)
              ltac:(vm_compute; reflexivity))
    as (bob' & Hget & _ & _ & Hfree).
  exists bob'. split; [exact Hget |].
  apply (Hfree 0%nat 0%nat alice0). vm_compute. reflexivity.
Defined.

Lemma join_first_player_witness :
  players (message always0 0 (join alice) 1000 initial) = [(0%nat, alice0)] /\
  exists x y, Player.x alice0 = Num x /\ Player.y alice0 = Num y /\
    (80 <= x < 1056 /\ 0 <= y < 80)%Q.
Proof.
  destruct (join_first_player always0 0%nat alice 1000%Z initial
              eq_refl always0_unit) as (Hps & _ & _).
  split.
  - rewrite Hps. vm_compute. reflexivity.
  - do 2 eexists. split; [reflexivity |]. split; [reflexivity |].
    vm_compute. repeat split; discriminate.
Defined.

Lemma close_removes_witness :
  Map_get 0 (players (close 0 1002 twoPlayers)) = None /\
  Map_get 1 (players (close 0 1002 twoPlayers))
    = Map_get 1 (players twoPlayers).
Proof.
  assert (Hnd : List.NoDup (Map_keys (players twoPlayers))).
  { vm_compute. repeat constructor; simpl; intuition discriminate. }
  destruct (close_removes 0%nat 1002%Z twoPlayers Hnd) as (Hgone & Hrest & _).
  split; [exact Hgone |]. apply Hrest. discriminate.
Defined.

Lemma join_then_close_restores_registry_witness :
  players (close 2 1003 (message always0 2 (join carol) 1002 twoPlayers))
  = players twoPlayers.
Proof.
  apply (join_then_close_restores_registry always0 2%nat carol 1002%Z 1003%Z
           twoPlayers).
  vm_compute. reflexivity.
Defined.

Lemma reachable_keys_distinct_witness :
  List.NoDup (Map_keys (players collidedWhileIdle)).
Proof.
  apply (reachable_keys_distinct always0). unfold collidedWhileIdle.
  eapply reachable_step; [apply twoPlayers_reachable | apply step_message].
Defined.

Lemma reachable_in_arena_witness :
  in_arena_or_NaN carol0.
Proof.
  assert (Hreach : reachable always0 twoInfected).
  { unfold twoInfected.
    do 3 (eapply reachable_step; [| apply step_message]).
    apply reachable_initial. }
  destruct (reachable_in_arena always0 always0_unit twoInfected Hreach)
    as [Hall _].
  apply (Hall 1%nat 1%nat carol0). vm_compute. reflexivity.
Defined.

Lemma reset_sweep_placed_apart_witness :
  sweepOrder twoPlayers = [(Center, 1%nat); (Edge, 0%nat)] /\
  exists alice' bob',
    players (resetAllPositions always0 twoPlayers) !! 0%nat
      = Some (0%nat, alice') /\
    players (resetAllPositions always0 twoPlayers) !! 1%nat
      = Some (1%nat, bob') /\
    isOverlapping alice' bob' = false.
Proof.
  assert (Hord : sweepOrder twoPlayers
                 = [] ++ (Center, 1%nat) :: [] ++ (Edge, 0%nat) :: [])
    by (vm_compute; reflexivity).
  split; [exact Hord |].
  destruct (spawnLoop always0 Center bob0
              (sweep always0 [] ([], twoPlayers)).1 MAX_SPAWN_ATTEMPTS
              (randomCalls (sweep always0 [] ([], twoPlayers)).2))
    as [[[x y] |] k] eqn:Hsp; [| vm_compute in Hsp; discriminate Hsp].
  destruct (spawnLoop always0 Edge alice0
              (sweep always0 ([] ++ (Center, 1%nat) :: [])
                 ([], twoPlayers)).1 MAX_SPAWN_ATTEMPTS
              (randomCalls (sweep always0 ([] ++ (Center, 1%nat) :: [])
                              ([], twoPlayers)).2))
    as [[[x' y'] |] k'] eqn:Hsp'; [| vm_compute in Hsp'; discriminate Hsp'].
  destruct (reset_sweep_placed_apart always0 twoPlayers [] [] []
              Center Edge 1%nat 0%nat 1%nat 0%nat bob0 alice0
              x y x' y' k k' Hord
              ltac:(vm_compute; reflexivity) ltac:(vm_compute; reflexivity)
              Hsp Hsp')
    as (Hbob & Halice & Hov & _).
  do 2 eexists. split; [exact Halice |]. split; [exact Hbob |]. exact Hov.
Defined.

Lemma reachable_throttle_flag_matches_timeout_witness :
  broadcastPending twoMoves = true /\ broadcastTimeout twoMoves = Some 1110%Z.
Proof.
  assert (Hto : broadcastTimeout twoMoves = Some 1110%Z)
    by (vm_compute; reflexivity).
  split; [| exact Hto].
  apply (reachable_throttle_flag_matches_timeout always0 twoMoves).
  - unfold twoMoves.
    do 3 (eapply reachable_step; [| apply step_message]).
    apply reachable_initial.
  - by exists 1110%Z.
Defined.

Lemma round_ends_after_counter_ticks_witness :
  let s := message always0 0 game_start 1001
             (message always0 0 (join alice) 1000 initial) in
  timerFields (Nat.iter 1 timerTick s) = (19%Z, true, false, true) /\
  timerFields (Nat.iter 20 timerTick s) = (20%Z, false, false, false).
Proof.
  cbv zeta.
  set (s := message always0 0 game_start 1001
              (message always0 0 (join alice) 1000 initial)).
  assert (Hp : gamePaused s = false) by (vm_compute; reflexivity).
  assert (Hc : (1 <= gameTimer s)%Z) by (vm_compute; discriminate).
  split.
  - destruct (round_ends_after_counter_ticks s 1 Hp Hc) as [Hdown _].
    rewrite Hdown; [vm_compute; reflexivity | vm_compute; reflexivity].
  - destruct (round_ends_after_counter_ticks s 20 Hp Hc) as [_ Hend].
    apply Hend. vm_compute. reflexivity.
Defined.

Lemma move_translates_or_saturates_witness :
  exists alice',
    Map_get 0 (players (message always0 0 (move (JSnumber 5) (JSnumber 7) None)
                          1002 twoPlayers))
      = Some alice' /\
    is_num (Player.x alice') 85 /\ is_num (Player.y alice') 7.
Proof.
  destruct (move_translates_or_saturates always0 0%nat alice0 (JSnumber 5)
              (JSnumber 7) None 1002%Z twoPlayers ltac:(vm_compute; reflexivity))
    as (alice' & Hget & Hx & Hy).
  exists alice'. split; [exact Hget |]. split.
  - destruct (Hx (80 + 0 * (1200 - 2 * 80 - 64))%Q 5%Q
                ltac:(vm_compute; reflexivity) eq_refl) as (Hin & _).
    destruct (Player.x alice') as [q |]; cbn [is_num] in *.
    + rewrite Hin; [vm_compute; reflexivity |].
      vm_compute. split; discriminate.
    + apply Hin. vm_compute. split; discriminate.
  - destruct (Hy (0 * 80)%Q 7%Q ltac:(vm_compute; reflexivity) eq_refl)
      as (Hin & _).
    destruct (Player.y alice') as [q |]; cbn [is_num] in *.
    + rewrite Hin; [vm_compute; reflexivity |].
      vm_compute. split; discriminate.
    + apply Hin. vm_compute. split; discriminate.
Defined.

Lemma trigger_emits_or_leaves_pending_witness :
  broadcastPending (trigger 1060 twoPlayers) = false /\
  broadcastPending (trigger 1010 twoPlayers) = true.
Proof.
  assert (Hwf : throttle_wf twoPlayers) by (vm_compute; reflexivity).
  split.
  - destruct (trigger_emits_or_leaves_pending 1060%Z twoPlayers Hwf)
      as (_ & [(_ & _ & Hp & _) | (Hs & _)]); [exact Hp |].
    vm_compute in Hs. discriminate Hs.
  - destruct (trigger_emits_or_leaves_pending 1010%Z twoPlayers Hwf)
      as (_ & [(_ & Hl & _) | (_ & _ & Hp & _)]); [| exact Hp].
    vm_compute in Hl. discriminate Hl.
Defined.
